(** * OdooRPC: the Environment (env.py) and the report service (service/report.py)

    A shallow embedding of [odoorpc.env.Environment] and of
    [odoorpc.service.report.Report.download], with the properties of the
    dirty-record tracking, of the model registry and of the report download.
    The generated classes, the registry as its callers change it,
    [encode2bytes] and [Report.list] come with properties of their own.

    Python objects that are mutated in place and shared (the registry dict, the
    dirty [WeakSet], the record objects, the generated model classes) live in
    an explicit store and are named by locations; an exception leaves the
    store as it was when it was raised. *)

From Stdlib Require Import Ascii String.
From stdpp Require Import gmap strings list fin_maps.

Open Scope string_scope.
Open Scope list_scope.

(** ** Python values *)

(** The values exchanged with the server: JSON data, plus byte strings. A
    dict is kept as its list of items. *)
#[warnings="-register-all"]
Inductive pyval :=
  | PNone
  | PBool (b : bool)
  | PInt (n : Z)
  | PStr (s : string)
  | PBytes (b : list Byte.byte)
  | PList (l : list pyval)
  | PDict (items : list (string * pyval)).

(** The exceptions that the modelled code can let escape. [Stuck] is not a
    Python exception: it marks a location that is not in the store, which no
    Python program can hold. *)
Inductive exn :=
  | RPCError
  | KeyError
  | TypeError
  | AttributeError
  | ValueError
  | UnicodeEncodeError
  | BinasciiError
  | Stuck.

(** [except ValueError] also catches its subclasses. *)
Definition is_ValueError (e : exn) : bool :=
  match e with
  | ValueError | UnicodeEncodeError | BinasciiError => true
  | _ => false
  end.

Inductive result (A : Type) :=
  | Ok (a : A)
  | Raise (e : exn).
Arguments Ok {A} a.
Arguments Raise {A} e.

(** Computations that only return or raise. *)
Definition rbind {A B} (m : result A) (k : A → result B) : result B :=
  match m with
  | Ok a => k a
  | Raise e => Raise e
  end.

Notation "'let?' x ':=' m 'in' k" := (rbind m (λ x, k))
  (at level 10, x pattern, m at level 100, k at level 200, only parsing).

(** ** The store *)

Definition loc := positive.

(** [Environment]: the attributes set by [__init__]. [_registry] and [_dirty]
    hold references; [_odoo], the transport, is the same for every
    environment and is given once, by the class [Transport] below. *)
Record Environment := {
  _db : string;
  _uid : Z;
  _context : pyval;
  _registry : loc;
  _dirty : loc
}.

(** Modelled from the spec: the field descriptor made by
    [fields.generate_field(field_name, field_data)], which is not part of
    env.py. The factory is pure and deterministic, so a descriptor is
    represented by the two arguments it was made from. *)
Record FieldDescriptor := {
  fd_name : string;
  fd_data : pyval
}.

Definition generate_field (field_name : string) (field_data : pyval) :
    FieldDescriptor :=
  {| fd_name := field_name; fd_data := field_data |}.

(** The entries of the [attrs] dict of [_create_model_class]. *)
Inductive attr :=
  | AEnv (env : Environment)
  | AOdoo
  | AName (model : string)
  | AColumns (columns : gmap string FieldDescriptor)
  | AField (field : FieldDescriptor).

(** A class made by [type(cls_name, (Model,), attrs)]. *)
Record ModelClass := {
  cls_name : string;
  cls_attrs : gmap string attr
}.

(** Modelled from the spec: a record (the class [Model] is not part of
    env.py). It holds its [id], the environment it is tied to, [_values] (the
    authoritative cache, per field and id) and [_values_to_write] (field name
    to a mapping from id to staged value). *)
Record RecordObj := {
  rec_id : Z;
  rec_env : Environment;
  _values : gmap string (gmap Z pyval);
  _values_to_write : gmap string (gmap Z pyval)
}.

(** The remote calls of this module. [Write r id values] is the call made by
    [record.write(values)] for the record object at [r]. *)
Inductive call :=
  | FieldsGet (model : string)
  | Write (r : loc) (id : Z) (values : gmap string pyval).

(** The store: the registry dicts and the dirty sets of the environments,
    the classes and the record objects, each by location, and the calls made
    so far. The dirty set is a [WeakSet]: a record that the program no longer
    holds leaves it; the records of the store are those that the program
    holds, so none leaves here. Its elements are record objects, taken by
    identity. *)
Record State := {
  registries : gmap loc (gmap string loc);
  dirties : gmap loc (gset loc);
  classes : gmap loc ModelClass;
  records : gmap loc RecordObj;
  trace : list call
}.

Definition set_registries (f : gmap loc (gmap string loc) → gmap loc (gmap string loc))
    (st : State) : State :=
  {| registries := f (registries st); dirties := dirties st;
     classes := classes st; records := records st; trace := trace st |}.

Definition set_dirties (f : gmap loc (gset loc) → gmap loc (gset loc))
    (st : State) : State :=
  {| registries := registries st; dirties := f (dirties st);
     classes := classes st; records := records st; trace := trace st |}.

Definition set_classes (f : gmap loc ModelClass → gmap loc ModelClass)
    (st : State) : State :=
  {| registries := registries st; dirties := dirties st;
     classes := f (classes st); records := records st; trace := trace st |}.

Definition set_records (f : gmap loc RecordObj → gmap loc RecordObj)
    (st : State) : State :=
  {| registries := registries st; dirties := dirties st;
     classes := classes st; records := f (records st); trace := trace st |}.

Definition log_call (c : call) (st : State) : State :=
  {| registries := registries st; dirties := dirties st;
     classes := classes st; records := records st; trace := trace st ++ [c] |}.

Definition empty_state : State :=
  {| registries := ∅; dirties := ∅; classes := ∅; records := ∅; trace := [] |}.

(** ** Computations: a state and exception monad *)

Definition M (A : Type) : Type := State → result A * State.

Definition ret {A} (a : A) : M A := λ st, (Ok a, st).

Definition raise {A} (e : exn) : M A := λ st, (Raise e, st).

Definition bind {A B} (m : M A) (k : A → M B) : M B :=
  λ st, match m st with
        | (Ok a, st') => k a st'
        | (Raise e, st') => (Raise e, st')
        end.

Definition gets {A} (f : State → A) : M A := λ st, (Ok (f st), st).

Definition modify (f : State → State) : M unit := λ st, (Ok tt, f st).

(** A computation that does not touch the store. *)
Definition lift {A} (r : result A) : M A := λ st, (r, st).

(** A value that must be there: [None] is an exception. *)
Definition expect {A} (e : exn) (o : option A) : M A :=
  match o with
  | Some a => ret a
  | None => raise e
  end.

Notation "'let*' x ':=' m 'in' k" := (bind m (λ x, k))
  (at level 10, x pattern, m at level 100, k at level 200, only parsing).
Notation "m ';;' k" := (bind m (λ _, k))
  (at level 100, k at level 200, right associativity, only parsing).

(** ** The collaborators *)

(** The transport ([self._odoo]): what the server answers to a call, given
    the calls made before it. [None] is a failed call, which raises
    [RPCError] in the caller. *)
Class Transport := {
  fields_get_reply : list call → string → option (gmap string pyval);
  write_reply : list call → loc → Z → gmap string pyval → bool
}.

(** Python leaves the iteration order of a set open, and that of a dict
    depends on how it was filled: an order is any enumeration of the
    elements, or of the keys. *)
Class IterOrder := {
  set_order : gset loc → list loc;
  set_order_perm : ∀ s, set_order s ≡ₚ elements s;
  dict_order : ∀ {A}, gmap string A → list string;
  dict_order_perm : ∀ A (m : gmap string A), dict_order m ≡ₚ (map_to_list m).*1
}.

(** Modelled from the spec: the [store] method of the field descriptors
    (fields.py is not part of the sources). [store field id value] gives the
    [_values] dictionary of the record after the descriptor of [field] has
    stored [value] for the record [id]; how a value is converted is left
    open. *)
Class FieldStore := {
  store : string → Z → pyval → gmap string (gmap Z pyval) → gmap string (gmap Z pyval)
}.

(** The plain descriptor: [record._values[field][record.id] = value]. *)
Definition store_as_is (field : string) (id : Z) (value : pyval)
    (values : gmap string (gmap Z pyval)) : gmap string (gmap Z pyval) :=
  <[field := <[id := value]> (default ∅ (values !! field))]> values.

(** The order of stdpp's own enumerations. *)
Definition canonical_order : IterOrder :=
  {| set_order s := elements s;
     set_order_perm s := Permutation_refl (elements s);
     dict_order A m := (map_to_list m).*1;
     dict_order_perm A m := Permutation_refl ((map_to_list m).*1) |}.

Section Env.

Context `{!Transport, !IterOrder, !FieldStore}.

(** *** self.registry, self.dirty *)

Definition registry (self : Environment) : M (gmap string loc) :=
  let* regs := gets registries in expect Stuck (regs !! _registry self).

Definition dirty (self : Environment) : M (gset loc) :=
  let* ds := gets dirties in expect Stuck (ds !! _dirty self).

Definition get_record (r : loc) : M RecordObj :=
  let* rs := gets records in expect Stuck (rs !! r).

(** *** Environment.commit *)

(** One turn of the loop [for field in record._values_to_write], on the
    dict [values] being built, on [record._values] and on
    [record._values_to_write]. The descriptor
    [record.__class__.__dict__[field]] is found by the name of the field (the
    fields of [_values_to_write] are those of the class of the record, and
    each has its descriptor there), so that its [store] is [store field]. The
    last case does not occur: [field] is a key of the dict. *)
Definition commit_field (id : Z) (field : string)
    (acc : gmap string pyval * gmap string (gmap Z pyval) * gmap string (gmap Z pyval)) :
    gmap string pyval * gmap string (gmap Z pyval) * gmap string (gmap Z pyval) :=
  let '(values, cache, to_write) := acc in
  match to_write !! field with
  | Some staged =>
      match staged !! id with
      | Some value =>
          (* value = record._values_to_write[field].pop(record.id) *)
          (<[field := value]> values,
           store field id value cache,
           <[field := delete id staged]> to_write)
      | None => acc
      end
  | None => acc
  end.

Definition commit_fields (id : Z) (fields : list string)
    (cache to_write : gmap string (gmap Z pyval)) :
    gmap string pyval * gmap string (gmap Z pyval) * gmap string (gmap Z pyval) :=
  foldl (λ acc field, commit_field id field acc) (∅, cache, to_write) fields.

(** [record.write(values)]: one remote call, that can fail. *)
Definition record_write (r : loc) (id : Z) (values : gmap string pyval) : M unit :=
  let* calls := gets trace in
  modify (log_call (Write r id values));;
  if write_reply calls r id values then ret tt else raise RPCError.

(** [self.dirty.remove(record)]: [KeyError] when the record is not there. *)
Definition dirty_remove (self : Environment) (r : loc) : M unit :=
  let* d := dirty self in
  if decide (r ∈ d)
  then modify (set_dirties <[_dirty self := d ∖ {[r]}]>)
  else raise KeyError.

(** The body of the loop [for record in set(self.dirty)]. *)
Definition commit_record (self : Environment) (r : loc) : M unit :=
  let* record := get_record r in
  let '(values, cache, to_write) :=
    commit_fields (rec_id record) (dict_order (_values_to_write record))
      (_values record) (_values_to_write record) in
  modify (set_records <[r := {| rec_id := rec_id record; rec_env := rec_env record;
                                _values := cache; _values_to_write := to_write |}]>);;
  record_write r (rec_id record) values;;
  dirty_remove self r.

Fixpoint commit_loop (self : Environment) (snapshot : list loc) : M unit :=
  match snapshot with
  | [] => ret tt
  | r :: rest => commit_record self r;; commit_loop self rest
  end.

Definition commit (self : Environment) : M unit :=
  let* d := dirty self in
  commit_loop self (set_order d).

(** *** Environment.invalidate *)

(** [self.dirty.clear()], on the set object itself. *)
Definition invalidate (self : Environment) : M unit :=
  let* _ := dirty self in
  modify (set_dirties <[_dirty self := ∅]>).

(** *** Environment.__init__ and Environment.__call__ *)

(** [self._registry = {}] and [self._dirty = weakref.WeakSet()] make two new
    objects. *)
Definition __init__ (db : string) (uid : Z) (context : pyval) : M Environment :=
  let* regs := gets registries in
  let reg := fresh (dom regs) in
  modify (set_registries <[reg := ∅]>);;
  let* ds := gets dirties in
  let d := fresh (dom ds) in
  modify (set_dirties <[d := ∅]>);;
  ret {| _db := db; _uid := uid; _context := context; _registry := reg; _dirty := d |}.

Definition __call__ (self : Environment) (context : option pyval) : M Environment :=
  let context := match context with None => _context self | Some c => c end in
  let* env := __init__ (_db self) (_uid self) context in
  (* env._dirty = self._dirty; env._registry = self._registry *)
  ret {| _db := _db env; _uid := _uid env; _context := _context env;
         _registry := _registry self; _dirty := _dirty self |}.

(** *** Environment._create_model_class *)

Definition FIELDS_RESERVED : list string :=
  ["id"; "ids"; "__odoo__"; "__osv__"; "__data__"; "env"].

(** [model.replace('.', '_')]. The Python 2 branch that follows it encodes a
    [unicode] name to a byte string, which is what a [string] is here. *)
Fixpoint replace_char (old new : Ascii.ascii) (s : string) : string :=
  match s with
  | EmptyString => EmptyString
  | String c rest =>
      String (if Ascii.eqb c old then new else c) (replace_char old new rest)
  end.

(** [self._odoo.execute(model, 'fields_get')]. *)
Definition execute_fields_get (model : string) : M (gmap string pyval) :=
  let* calls := gets trace in
  modify (log_call (FieldsGet model));;
  expect RPCError (fields_get_reply calls model).

(** [attrs['_columns']], used as a dict: a field of the server that is called
    [_columns] replaces the dict by a descriptor, which has no items. *)
Definition attrs_columns (attrs : gmap string attr) :
    result (gmap string FieldDescriptor) :=
  match attrs !! "_columns" with
  | Some (AColumns columns) => Ok columns
  | Some _ => Raise TypeError
  | None => Raise KeyError
  end.

(** [attrs['_columns'][field_name] = Field; attrs[field_name] = Field]. *)
Definition add_field (field_name : string) (Field : FieldDescriptor)
    (attrs : gmap string attr) : result (gmap string attr) :=
  let? columns := attrs_columns attrs in
  Ok (<[field_name := AField Field]>
        (<["_columns" := AColumns (<[field_name := Field]> columns)]> attrs)).

(** [fields_get.items()], in the order of the dict. *)
Definition dict_items (d : gmap string pyval) : list (string * pyval) :=
  omap (λ k, pair k <$> d !! k) (dict_order d).

(** The loop [for field_name, field_data in fields_get.items()]. *)
Fixpoint add_fields (items : list (string * pyval)) (attrs : gmap string attr) :
    result (gmap string attr) :=
  match items with
  | [] => Ok attrs
  | (field_name, field_data) :: rest =>
      let? attrs :=
        (if bool_decide (field_name ∈ FIELDS_RESERVED) then Ok attrs
         else add_field field_name (generate_field field_name field_data) attrs) in
      add_fields rest attrs
  end.

(** The case where no field [name] exists: one is generated, read-only. *)
Definition add_name_field (attrs : gmap string attr) : result (gmap string attr) :=
  let? columns := attrs_columns attrs in
  if bool_decide ("name" ∈ dom columns) then Ok attrs
  else
    let field_data :=
      PDict [("type", PStr "text"); ("string", PStr "Name"); ("readonly", PBool true)] in
    add_field "name" (generate_field "name" field_data) attrs.

(** [type(cls_name, (Model,), attrs)]: a new class object. *)
Definition new_class (name : string) (attrs : gmap string attr) : M loc :=
  let* cs := gets classes in
  let c := fresh (dom cs) in
  modify (set_classes <[c := {| cls_name := name; cls_attrs := attrs |}]>);;
  ret c.

(** [attrs = {'_env': self, '_odoo': self._odoo, '_name': model,
    '_columns': {}}]. *)
Definition initial_attrs (self : Environment) (model : string) : gmap string attr :=
  <["_columns" := AColumns ∅]>
    (<["_name" := AName model]> (<["_odoo" := AOdoo]> (<["_env" := AEnv self]> ∅))).

Definition _create_model_class (self : Environment) (model : string) : M loc :=
  let name := replace_char "."%char "_"%char model in
  let attrs := initial_attrs self model in
  let* fields_get := execute_fields_get model in
  let* attrs := lift (add_fields (dict_items fields_get) attrs) in
  let* attrs := lift (add_name_field attrs) in
  new_class name attrs.

(** The part of [_create_model_class] that makes no call: the [attrs] of the
    class, from the reply of [fields_get]. *)
Definition class_attrs (self : Environment) (model : string)
    (fields_get : gmap string pyval) : result (gmap string attr) :=
  let? attrs := add_fields (dict_items fields_get) (initial_attrs self model) in
  add_name_field attrs.

(** *** Environment.__getitem__ *)

Definition __getitem__ (self : Environment) (model : string) : M loc :=
  let* reg := registry self in
  (match reg !! model with
   | None =>
       let* cls := _create_model_class self model in
       (* self.registry[model] = cls *)
       let* reg := registry self in
       modify (set_registries <[_registry self := <[model := cls]> reg]>)
   | Some _ => ret tt
   end);;
  let* reg := registry self in
  expect KeyError (reg !! model).

(** *** Records and assignments to their fields *)

(** Modelled from the spec: a record object of the environment [env] for the
    row [id], as the class [Model] (not part of the sources) makes one: it
    has a cache, and an empty mapping of staged values for each of its
    fields. *)
Definition new_record (env : Environment) (id : Z)
    (cache : gmap string (gmap Z pyval)) (fields : list string) : M loc :=
  let* rs := gets records in
  let r := fresh (dom rs) in
  modify (set_records <[r := {| rec_id := id; rec_env := env; _values := cache;
                                _values_to_write := gset_to_gmap ∅ (list_to_set fields) |}]>);;
  ret r.

(** The record after [record._values_to_write[field][record.id] = value]. *)
Definition stage (record : RecordObj) (field : string) (value : pyval) : RecordObj :=
  {| rec_id := rec_id record; rec_env := rec_env record;
     _values := _values record;
     _values_to_write :=
       <[field := <[rec_id record := value]>
                    (default ∅ (_values_to_write record !! field))]>
         (_values_to_write record) |}.

(** Modelled from the spec: the [write] of a field descriptor, that is an
    assignment [record.field = value] with [auto_commit] off (fields.py is
    not part of the sources). It stages the value under the id of the record
    and adds the record to the dirty set of its environment; it calls no
    transport and leaves [_values] alone. *)
Definition field_write (r : loc) (field : string) (value : pyval) : M unit :=
  let* record := get_record r in
  modify (set_records <[r := stage record field value]>);;
  let* d := dirty (rec_env record) in
  modify (set_dirties <[_dirty (rec_env record) := {[r]} ∪ d]>).

Fixpoint field_writes (r : loc) (assignments : list (string * pyval)) : M unit :=
  match assignments with
  | [] => ret tt
  | (field, value) :: rest => field_write r field value;; field_writes r rest
  end.

(** The record after a list of assignments to its fields. *)
Definition stage_all (record : RecordObj) (assignments : list (string * pyval)) :
    RecordObj :=
  foldl (λ record '(field, value), stage record field value) record assignments.

(** *** The notions that the properties are stated with *)

(** [record in env.dirty]. *)
Definition is_dirty (self : Environment) (r : loc) (st : State) : Prop :=
  ∃ d, dirties st !! _dirty self = Some d ∧ r ∈ d.

(** The staged values of a record that are keyed by its own id, by field:
    what [commit] collects in [values]. *)
Definition staged_values (record : RecordObj) : gmap string pyval :=
  omap (λ staged : gmap Z pyval, staged !! rec_id record) (_values_to_write record).

(** A record has a pending value when one field at least has a value staged
    under its id. *)
Definition has_pending (record : RecordObj) : Prop :=
  ∃ field value, staged_values record !! field = Some value.

(** [_values] after the descriptors have stored the staged values of the
    record, field after field. *)
Definition stored (record : RecordObj) : gmap string (gmap Z pyval) :=
  foldl (λ cache field,
           match staged_values record !! field with
           | Some value => store field (rec_id record) value cache
           | None => cache
           end)
        (_values record) (dict_order (_values_to_write record)).

(** The record after its turn in the loop of [commit]. *)
Definition committed (record : RecordObj) : RecordObj :=
  {| rec_id := rec_id record; rec_env := rec_env record;
     _values := stored record;
     _values_to_write := delete (rec_id record) <$> _values_to_write record |}.

(** The remote call by which the record at [r], as it is in [st], is
    written. *)
Definition write_call (st : State) (r : loc) : option call :=
  (λ record, Write r (rec_id record) (staged_values record)) <$> records st !! r.

Definition is_write_of (r : loc) (c : call) : bool :=
  match c with
  | Write r' _ _ => bool_decide (r' = r)
  | FieldsGet _ => false
  end.

(** The public operations, as steps from a state to the next. With
    [failures] off, the calls to [commit] are those that return. *)
Inductive step (failures : bool) : State → State → Prop :=
  | step_init db uid context env st st' :
      __init__ db uid context st = (Ok env, st') → step failures st st'
  | step_call self context env st st' :
      __call__ self context st = (Ok env, st') → step failures st st'
  | step_getitem self model o st st' :
      __getitem__ self model st = (o, st') → step failures st st'
  | step_new_record env id cache fields r st st' :
      new_record env id cache fields st = (Ok r, st') → step failures st st'
  | step_field_write r field value o st st' :
      field_write r field value st = (o, st') → step failures st st'
  | step_commit self o st st' :
      commit self st = (o, st') → failures = true ∨ o = Ok tt → step failures st st'
  | step_invalidate self o st st' :
      invalidate self st = (o, st') → step failures st st'.

Definition reachable (failures : bool) (st : State) : Prop :=
  rtc (step failures) empty_state st.

(** Every record of a dirty set is a record of the store, tied to an
    environment that holds this very set, and has a pending value. *)
Definition dirty_pending (st : State) : Prop :=
  ∀ d s r, dirties st !! d = Some s → r ∈ s →
    ∃ record, records st !! r = Some record ∧ _dirty (rec_env record) = d ∧
              has_pending record.

End Env.

(** ** The report service: Report.download *)

(** [key in d] and [d.get(key)] on the items of a dict. *)
Fixpoint dict_get (key : string) (items : list (string * pyval)) : option pyval :=
  match items with
  | [] => None
  | (k, v) :: rest => if String.eqb k key then Some v else dict_get key rest
  end.

Definition dict_contains (key : string) (items : list (string * pyval)) : bool :=
  match dict_get key items with
  | Some _ => true
  | None => false
  end.

(** [d[key]] on a dict. *)
Definition dict_getitem (key : string) (items : list (string * pyval)) : result pyval :=
  match dict_get key items with
  | Some v => Ok v
  | None => Raise KeyError
  end.

(** [v[key]] with a string key: only a dict takes one. *)
Definition py_getitem (key : string) (v : pyval) : result pyval :=
  match v with
  | PDict items => dict_getitem key items
  | _ => Raise TypeError
  end.

(** [v.get(key)]: a method of dicts only. *)
Definition py_get (key : string) (v : pyval) : result pyval :=
  match v with
  | PDict items => Ok (default PNone (dict_get key items))
  | _ => Raise AttributeError
  end.

(** The truth value of a Python value, as [not] and [if] take it. *)
Definition truthy (v : pyval) : bool :=
  match v with
  | PNone => false
  | PBool b => b
  | PInt n => negb (n =? 0)%Z
  | PStr s => negb (String.eqb s "")
  | PBytes b => negb (bool_decide (b = []))
  | PList l => match l with [] => false | _ => true end
  | PDict items => match items with [] => false | _ => true end
  end.

(** What Python itself provides: the major version of the interpreter, which
    selects the definition of [encode2bytes], and
    [base64.standard_b64decode]. *)
Class Python := {
  version_major : Z;
  standard_b64decode : pyval → result (list Byte.byte)
}.

Section Report.

Context `{!Python}.

Definition is_ascii (s : string) : bool :=
  forallb (λ c, (nat_of_ascii c <? 128)%nat) (list_ascii_of_string s).

(** [encode2bytes]: the identity under Python 2, [bytes(data, 'ascii')]
    otherwise. *)
Definition encode2bytes (data : pyval) : result pyval :=
  if (version_major <? 3)%Z then Ok data
  else
    match data with
    | PStr s =>
        if is_ascii s then Ok (PBytes (byte_of_ascii <$> list_ascii_of_string s))
        else Raise UnicodeEncodeError
    | _ => Raise TypeError
    end.

(** [Report.download], from the point where [self._odoo.json(...)] has given
    its outcome: [response] is the decoded reply [data], a dict, or the
    exception of the transport; what comes before only builds the request.
    The result stands for [io.BytesIO(content)]. *)
Definition download (response : result (list (string * pyval))) :
    result (list Byte.byte) :=
  let? data := response in
  (* if 'result' not in data and not data['result'].get('result'): *)
  let? invalid :=
    (if negb (dict_contains "result" data) then
       let? r := dict_getitem "result" data in
       let? payload := py_get "result" r in
       Ok (negb (truthy payload))
     else Ok false) in
  if invalid : bool then Raise ValueError
  else
    let? r := dict_getitem "result" data in
    let? payload := py_getitem "result" r in
    let? result := encode2bytes payload in
    let? content := standard_b64decode result in
    Ok content.

(** A reply has a usable [result] payload when it has the key [result] and
    the value under it has a true [result] of its own: the negation of what
    the test in [download] is after. *)
Definition usable_result (data : list (string * pyval)) : bool :=
  match dict_get "result" data with
  | Some (PDict items) => truthy (default PNone (dict_get "result" items))
  | _ => false
  end.

End Report.

(** ** The registry as its callers change it, and its soundness *)


(** [del env.registry[model]], by which a caller has the proxy of a model
    made anew at the next lookup: [KeyError] when the model is not there. *)
Definition registry_delitem (self : Environment) (model : string) : M unit :=
  let* reg := registry self in
  match reg !! model with
  | Some _ => modify (set_registries <[_registry self := delete model reg]>)
  | None => raise KeyError
  end.

(** [env.registry.clear()]. *)
Definition registry_clear (self : Environment) : M unit :=
  let* _ := registry self in
  modify (set_registries <[_registry self := ∅]>).

(** Every entry of a registry is a class of the store, named after the
    model it is filed under and with a column [name]; and no class is filed
    twice, be it in two registries or under two models. *)
Definition registry_sound (st : State) : Prop :=
  (∀ l reg model cls,
     registries st !! l = Some reg → reg !! model = Some cls →
     ∃ c columns,
       classes st !! cls = Some c ∧
       cls_name c = replace_char "."%char "_"%char model ∧
       cls_attrs c !! "_columns" = Some (AColumns columns) ∧
       is_Some (columns !! "name")) ∧
  (∀ l1 reg1 model1 l2 reg2 model2 cls,
     registries st !! l1 = Some reg1 → reg1 !! model1 = Some cls →
     registries st !! l2 = Some reg2 → reg2 !! model2 = Some cls →
     l1 = l2 ∧ model1 = model2).

(** ** The report service: Report.list *)

(** [d.pop(key)] on the items of a dict: the value and the items that are
    left, or [KeyError]. *)
Definition dict_pop (key : string) (items : list (string * pyval)) :
    result (pyval * list (string * pyval)) :=
  match dict_get key items with
  | Some v => Ok (v, filter (λ item, item.1 ≠ key) items)
  | None => Raise KeyError
  end.

(** The values that a dict takes as keys: a list and a dict have no hash. *)
Definition hashable (v : pyval) : bool :=
  match v with
  | PList _ | PDict _ => false
  | _ => true
  end.

#[global] Instance byte_eq_dec : EqDecision Byte.byte := Byte.byte_eq_dec.

Section ReportList.

Context `{!Transport, !IterOrder, !Python}.

(** Two values are the same key of a dict when they are equal: [True] is
    [1] and [False] is [0]; under Python 2 a byte string is the text of the
    same ASCII characters. *)
Definition key_eqb (a b : pyval) : bool :=
  match a, b with
  | PNone, PNone => true
  | PBool x, PBool y => bool_decide (x = y)
  | PBool x, PInt n | PInt n, PBool x => (n =? Z.b2z x)%Z
  | PInt m, PInt n => (m =? n)%Z
  | PStr s, PStr t => String.eqb s t
  | PBytes s, PBytes t => bool_decide (s = t)
  | PStr s, PBytes t | PBytes t, PStr s =>
      (version_major <? 3)%Z && is_ascii s &&
      bool_decide (byte_of_ascii <$> list_ascii_of_string s = t)
  | _, _ => false
  end.

(** The dict [result] of [Report.list], from a model to the list of its
    reports, as its list of items, in the order in which the keys came. *)
Fixpoint groups_get (model : pyval)
    (groups : list (pyval * list (list (string * pyval)))) :
    option (list (list (string * pyval))) :=
  match groups with
  | [] => None
  | (k, reports) :: rest =>
      if key_eqb k model then Some reports else groups_get model rest
  end.

(** [result[model].append(report)]. *)
Fixpoint groups_append (model : pyval) (report : list (string * pyval))
    (groups : list (pyval * list (list (string * pyval)))) :
    list (pyval * list (list (string * pyval))) :=
  match groups with
  | [] => []
  | (k, reports) :: rest =>
      if key_eqb k model then (k, reports ++ [report]) :: rest
      else (k, reports) :: groups_append model report rest
  end.

(** The body of the loop [for report in reports]. *)
Definition list_turn (report : list (string * pyval))
    (groups : list (pyval * list (list (string * pyval)))) :
    result (list (pyval * list (list (string * pyval)))) :=
  let? (model, report) := dict_pop "model" report in
  let? (_, report) := dict_pop "id" report in
  if hashable model then
    (* if model not in result: result[model] = [] *)
    let groups :=
      match groups_get model groups with
      | None => groups ++ [(model, [])]
      | Some _ => groups
      end in
    Ok (groups_append model report groups)
  else Raise TypeError.

Fixpoint list_loop (reports : list (list (string * pyval)))
    (groups : list (pyval * list (list (string * pyval)))) :
    result (list (pyval * list (list (string * pyval)))) :=
  match reports with
  | [] => Ok groups
  | report :: rest => let? groups := list_turn report groups in list_loop rest groups
  end.

(** [Report.list]. [search_read] stands for [Report.search([])] followed by
    [Report.read(report_ids, ['name', 'model', 'report_name',
    'report_type'])], on the class [Report] that the environment gives: two
    methods of [Model], which is not part of the sources. It returns
    [reports], a list of dicts, or raises. *)
Definition list_reports (env : Environment)
    (search_read : loc → M (list (list (string * pyval)))) :
    M (list (pyval * list (list (string * pyval)))) :=
  let* Report := __getitem__ env "ir.actions.report.xml" in
  let* reports := search_read Report in
  lift (list_loop reports []).

(** A report as [Report.list] returns it: without its [model] and its
    [id]. *)
Definition listed (report : list (string * pyval)) : list (string * pyval) :=
  filter (λ item, item.1 ≠ "id") (filter (λ item, item.1 ≠ "model") report).

(** The reports of a model, as they are listed, in the order of
    [reports]. *)
Definition reports_of (model : string) (reports : list (list (string * pyval))) :
    list (list (string * pyval)) :=
  omap (λ report,
          match dict_get "model" report with
          | Some (PStr s) => if String.eqb s model then Some (listed report) else None
          | _ => None
          end) reports.

(** A report that has a model, which is a string, and an id. *)
Definition has_model_and_id (report : list (string * pyval)) : Prop :=
  (∃ s, dict_get "model" report = Some (PStr s)) ∧ is_Some (dict_get "id" report).

(** A dict [result] whose keys are strings. *)
Definition string_keys (groups : list (pyval * list (list (string * pyval)))) : Prop :=
  ∀ k l, (k, l) ∈ groups → ∃ s, k = PStr s.

End ReportList.

(** ** Concrete collaborators, for the examples *)

(** A server that refuses every call, and one that accepts every call and
    describes every model by the two fields [name] and [login]. *)
Definition rejecting : Transport :=
  {| fields_get_reply _ _ := None;
     write_reply _ _ _ _ := false |}.

Definition accepting : Transport :=
  {| fields_get_reply _ _ :=
       Some (<["name" := PDict [("type", PStr "char")]]>
               (<["login" := PDict [("type", PStr "char")]]> ∅));
     write_reply _ _ _ _ := true |}.

Definition plain_store : FieldStore := {| store := store_as_is |}.

(** Python 3, with a decoder that only knows the empty string. *)
Definition python3 : Python :=
  {| version_major := 3;
     standard_b64decode v :=
       match v with
       | PBytes [] => Ok []
       | PBytes _ => Raise BinasciiError
       | _ => Raise TypeError
       end |}.

(** The state that a computation leaves, and its outcome. *)
Definition run {A} (m : M A) (st : State) : State := (m st).2.
Definition outcome {A} (m : M A) (st : State) : result A := (m st).1.

(** [odoo.env], one record [user] of it with the id 7, nothing cached and
    nothing staged for its fields [name] and [email], and the same after
    [user.name = "Joe"]. *)
Definition odoo_env : Environment :=
  {| _db := "db_name"; _uid := 1; _context := PDict [("lang", PStr "fr_FR")];
     _registry := 1%positive; _dirty := 1%positive |}.

Definition st_login : State :=
  run (__init__ "db_name" 1 (PDict [("lang", PStr "fr_FR")])) empty_state.

Definition user : loc := 1%positive.

Definition no_values : gmap string (gmap Z pyval) :=
  <["name" := ∅]> (<["email" := ∅]> ∅).

Definition st_user : State :=
  run (new_record odoo_env 7 no_values ["name"; "email"]) st_login.

Definition st_joe : State :=
  run (field_write user "name" (PStr "Joe")) st_user.

(** A server that accepts the first write call it gets and refuses the
    next ones. *)
Definition accepting_once : Transport :=
  {| fields_get_reply _ _ := None;
     write_reply calls _ _ _ := match calls with [] => true | _ => false end |}.

(** The same with [user.name = "Joe"; user.email = "joe@odoo.net"]. *)
Definition st_joe_email : State :=
  run (field_writes user [("name", PStr "Joe"); ("email", PStr "joe@odoo.net")]) st_user.

(** Three records with a name staged each: [user], [user2] and [user3]. *)
Definition user2 : loc := 2%positive.
Definition user3 : loc := 3%positive.

Definition st_three : State :=
  run (new_record odoo_env 8 no_values ["name"; "email"];;
       new_record odoo_env 9 no_values ["name"; "email"];;
       field_write user "name" (PStr "Joe");;
       field_write user2 "name" (PStr "Jim");;
       field_write user3 "name" (PStr "Jack")) st_user.

(** [commit] in [odoo.env], for each of the three servers. *)
Definition commit_rejected : M unit :=
  @commit rejecting canonical_order plain_store odoo_env.

Definition commit_accepted : M unit :=
  @commit accepting canonical_order plain_store odoo_env.

Definition commit_accepted_once : M unit :=
  @commit accepting_once canonical_order plain_store odoo_env.

(** A server that refuses the first write call it gets and accepts the next
    ones. *)
Definition rejecting_once : Transport :=
  {| fields_get_reply _ _ := None;
     write_reply calls _ _ _ := match calls with [] => false | _ => true end |}.

(** The state after [odoo.env['res.partner']], with the server that
    accepts every call. *)
Definition st_partner : State :=
  run (@__getitem__ accepting canonical_order odoo_env "res.partner") st_login.



(** Three reports, of two models, as [Report.read] gives them. *)
Definition three_reports : list (list (string * pyval)) :=
  [ [("id", PInt 1); ("name", PStr "Invoices"); ("model", PStr "account.invoice");
     ("report_name", PStr "account.report_invoice"); ("report_type", PStr "qweb-pdf")];
    [("id", PInt 2); ("name", PStr "Quotation"); ("model", PStr "sale.order");
     ("report_name", PStr "sale.report_saleorder"); ("report_type", PStr "qweb-pdf")];
    [("id", PInt 3); ("name", PStr "Duplicates"); ("model", PStr "account.invoice");
     ("report_name", PStr "account.report_duplicate"); ("report_type", PStr "qweb-pdf")] ].

(** [Report.search] and [Report.read] that give the three reports. *)
Definition read_three_reports (Report : loc) : M (list (list (string * pyval))) :=
  ret three_reports.

(** A report without its [id]. *)
Definition report_without_id : list (string * pyval) :=
  [("name", PStr "Quotation"); ("model", PStr "sale.order")].

(** ** Properties of the monad *)

(** The computations are run by unfolding the operations of the monad and
    the accesses to the store. *)
Ltac run_monad :=
  unfold get_record, registry, dirty, bind, gets, modify, expect; simpl.

Tactic Notation "run_monad" "in" hyp(H) :=
  unfold get_record, registry, dirty, bind, gets, modify, expect in H; simpl in H.

Lemma bind_ok {A B} (m : M A) (k : A → M B) st a st1 :
  m st = (Ok a, st1) → bind m k st = k a st1.
Proof. intros Hm. unfold bind. by rewrite Hm. Qed.

Lemma bind_raise {A B} (m : M A) (k : A → M B) st e st1 :
  m st = (Raise e, st1) → bind m k st = (Raise e, st1).
Proof. intros Hm. unfold bind. by rewrite Hm. Qed.

Lemma bind_inv {A B} (m : M A) (k : A → M B) st o st' :
  bind m k st = (o, st') →
  (∃ a st1, m st = (Ok a, st1) ∧ k a st1 = (o, st')) ∨
  (∃ e, m st = (Raise e, st') ∧ o = Raise e).
Proof.
  unfold bind. destruct (m st) as [[a|e] st1]; intros Hk.
  - left. by exists a, st1.
  - right. exists e. by inversion Hk.
Qed.

Example st_login_env :
  outcome (__init__ "db_name" 1 (PDict [("lang", PStr "fr_FR")])) empty_state =
  Ok odoo_env.
Proof. reflexivity. Qed.

Example st_user_loc :
  outcome (new_record odoo_env 7 no_values ["name"; "email"]) st_login = Ok user.
Proof. reflexivity. Qed.

Lemma foldl_ext {A B} (f g : A → B → A) (l : list B) (a : A) :
  (∀ a b, f a b = g a b) → foldl f a l = foldl g a l.
Proof.
  intros Hfg. revert a. induction l as [|b l IH]; intros a; simpl; [done|].
  by rewrite Hfg, IH.
Qed.

(** ** Iteration orders *)

Section Order.

Context `{!IterOrder}.

Lemma dict_order_NoDup {A} (m : gmap string A) : NoDup (dict_order m).
Proof. rewrite dict_order_perm. apply NoDup_fst_map_to_list. Qed.

Lemma elem_of_dict_order {A} (m : gmap string A) k :
  k ∈ dict_order m ↔ is_Some (m !! k).
Proof.
  rewrite dict_order_perm, list_elem_of_fmap. split.
  - intros [[k' a] [-> Hin]]. apply elem_of_map_to_list in Hin. by exists a.
  - intros [a Ha]. exists (k, a). split; [done|]. by apply elem_of_map_to_list.
Qed.

Lemma set_order_NoDup s : NoDup (set_order s).
Proof. rewrite set_order_perm. apply NoDup_elements. Qed.

Lemma elem_of_set_order s r : r ∈ set_order s ↔ r ∈ s.
Proof. rewrite set_order_perm. apply elem_of_elements. Qed.

End Order.

(** ** What commit does, turn by turn *)

Section CommitRun.

Context `{!Transport, !IterOrder, !FieldStore}.

Lemma commit_fields_snoc id (fields : list string) field cache to_write :
  commit_fields id (fields ++ [field]) cache to_write =
  commit_field id field (commit_fields id fields cache to_write).
Proof. unfold commit_fields. by rewrite foldl_snoc. Qed.

Lemma if_elem_of_snoc {B} (f field : string) (fields : list string) (x y : B) :
  (if decide (f ∈ (fields ++ [field])) then x else y) =
  (if decide (f = field) then x else if decide (f ∈ fields) then x else y).
Proof.
  assert (f ∈ (fields ++ [field]) ↔ f = field ∨ f ∈ fields) as Hiff.
  { rewrite elem_of_app, list_elem_of_singleton. tauto. }
  repeat case_decide; tauto.
Qed.

Lemma commit_fields_run id fields cache to_write :
  NoDup fields →
  ∃ values to_write',
    commit_fields id fields cache to_write =
      (values,
       foldl (λ cache field,
                match to_write !! field ≫= (λ staged : gmap Z pyval, staged !! id) with
                | Some value => store field id value cache
                | None => cache
                end) cache fields,
       to_write') ∧
    (∀ f, values !! f =
            if decide (f ∈ fields)
            then to_write !! f ≫= (λ staged : gmap Z pyval, staged !! id)
            else None) ∧
    (∀ f, to_write' !! f =
            if decide (f ∈ fields) then delete id <$> to_write !! f
            else to_write !! f).
Proof.
  induction fields as [|field fields IH] using rev_ind; intros Hnd.
  - exists ∅, to_write. split; [done|]. split; intros f.
    + rewrite lookup_empty. case_decide as Hin; [by apply elem_of_nil in Hin|done].
    + case_decide as Hin; [by apply elem_of_nil in Hin|done].
  - apply NoDup_app in Hnd as (Hnd & Hfresh & _).
    destruct (IH Hnd) as (values & to_write' & Heq & Hvalues & Hto_write).
    assert (field ∉ fields) as Hfield.
    { intros Hin. apply (Hfresh _ Hin). by apply list_elem_of_singleton. }
    rewrite commit_fields_snoc, Heq. unfold commit_field.
    rewrite foldl_snoc, Hto_write, decide_False by done.
    destruct (to_write !! field) as [staged|] eqn:Hstaged; simpl;
      [destruct (staged !! id) as [value|] eqn:Hvalue|];
      (eexists _, _; split; [done|]; split; intros f;
       rewrite if_elem_of_snoc; destruct (decide (f = field)) as [->|Hne]).
    + by rewrite lookup_insert_eq, Hstaged.
    + by rewrite lookup_insert_ne, Hvalues.
    + by rewrite lookup_insert_eq, Hstaged.
    + by rewrite lookup_insert_ne, Hto_write.
    + by rewrite Hvalues, decide_False, Hstaged.
    + by rewrite Hvalues.
    + rewrite Hto_write, decide_False, Hstaged by done.
      simpl. f_equal. symmetry. by apply delete_id.
    + by rewrite Hto_write.
    + by rewrite Hvalues, decide_False, Hstaged.
    + by rewrite Hvalues.
    + by rewrite Hto_write, decide_False, Hstaged.
    + by rewrite Hto_write.
Qed.

Lemma commit_fields_record record :
  commit_fields (rec_id record) (dict_order (_values_to_write record))
    (_values record) (_values_to_write record) =
  (staged_values record, stored record,
   delete (rec_id record) <$> _values_to_write record).
Proof.
  destruct (commit_fields_run (rec_id record) (dict_order (_values_to_write record))
              (_values record) (_values_to_write record))
    as (values & to_write' & -> & Hvalues & Hto_write).
  { apply dict_order_NoDup. }
  f_equal; [f_equal|].
  - apply map_eq. intros f. unfold staged_values.
    rewrite Hvalues, lookup_omap. case_decide as Hin; [done|].
    destruct (_values_to_write record !! f) eqn:Hf; [|done].
    destruct Hin. apply elem_of_dict_order. by rewrite Hf.
  - unfold stored. symmetry. apply foldl_ext. intros cache f.
    unfold staged_values. by rewrite lookup_omap.
  - apply map_eq. intros f.
    rewrite Hto_write, lookup_fmap. case_decide as Hin; [done|].
    destruct (_values_to_write record !! f) eqn:Hf; [|done].
    destruct Hin. apply elem_of_dict_order. by rewrite Hf.
Qed.

Lemma commit_record_eq self r st record :
  records st !! r = Some record →
  commit_record self r st =
  let st1 := log_call (Write r (rec_id record) (staged_values record))
               (set_records <[r := committed record]> st) in
  if write_reply (trace st) r (rec_id record) (staged_values record)
  then dirty_remove self r st1
  else (Raise RPCError, st1).
Proof.
  intros Hr. unfold commit_record. run_monad.
  rewrite Hr. simpl. rewrite commit_fields_record.
  unfold record_write. run_monad.
  by destruct (write_reply (trace st) r (rec_id record) (staged_values record)).
Qed.

Lemma commit_record_missing self r st :
  records st !! r = None → commit_record self r st = (Raise Stuck, st).
Proof.
  intros Hr. unfold commit_record. run_monad. by rewrite Hr.
Qed.

(** What one turn of the loop of [commit] does. *)
Lemma commit_record_run self r st o st' :
  commit_record self r st = (o, st') →
  (records st !! r = None ∧ o = Raise Stuck ∧ st' = st) ∨
  ∃ record,
    records st !! r = Some record ∧
    trace st' = trace st ++ [Write r (rec_id record) (staged_values record)] ∧
    records st' = <[r := committed record]> (records st) ∧
    registries st' = registries st ∧ classes st' = classes st ∧
    ((o = Ok tt ∧
      write_reply (trace st) r (rec_id record) (staged_values record) = true ∧
      ∃ d, dirties st !! _dirty self = Some d ∧ r ∈ d ∧
           dirties st' = <[_dirty self := d ∖ {[r]}]> (dirties st)) ∨
     (∃ e, o = Raise e ∧ dirties st' = dirties st ∧
           (e = RPCError ↔
            write_reply (trace st) r (rec_id record) (staged_values record) = false))).
Proof.
  destruct (records st !! r) as [record|] eqn:Hr.
  - rewrite (commit_record_eq _ _ _ _ Hr). simpl. intros Hrun. right.
    exists record. split; [done|].
    destruct (write_reply (trace st) r (rec_id record) (staged_values record)).
    + unfold dirty_remove in Hrun. run_monad in Hrun.
      destruct (dirties st !! _dirty self) as [d|] eqn:Hd; simpl in Hrun.
      * destruct (decide (r ∈ d)) as [Hin|Hin]; inversion Hrun; subst; simpl.
        -- repeat (split; [done|]). left. repeat (split; [done|]). by exists d.
        -- repeat (split; [done|]). right. exists KeyError.
           repeat (split; [done|]). done.
      * inversion Hrun; subst; simpl. repeat (split; [done|]). right.
        exists Stuck. repeat (split; [done|]). done.
    + inversion Hrun; subst; simpl. repeat (split; [done|]). right.
      exists RPCError. done.
  - rewrite (commit_record_missing _ _ _ Hr). intros Hrun. left.
    by inversion Hrun.
Qed.

Lemma omap_ext_in {A B} (f g : A → option B) (l : list A) :
  (∀ x, x ∈ l → f x = g x) → omap f l = omap g l.
Proof.
  induction l as [|a l IH]; intros Hfg; csimpl; [done|].
  rewrite (Hfg a) by apply list_elem_of_here.
  rewrite IH; [done|]. intros x Hx. apply Hfg. by apply list_elem_of_further.
Qed.

(** The loop of [commit], whatever its outcome: [written] are the records that
    were written and removed from the dirty set, and the first of [rest], if
    any, is the record at which an exception stopped the loop. *)
Lemma commit_loop_run self snapshot st o st' :
  NoDup snapshot →
  commit_loop self snapshot st = (o, st') →
  ∃ written rest,
    snapshot = written ++ rest ∧
    (o = Ok tt ∧ rest = [] ∨
     ∃ e r rest', o = Raise e ∧ rest = r :: rest' ∧
       (e = RPCError →
        ∃ record, records st !! r = Some record ∧
          write_reply (trace st ++ omap (write_call st) written) r
            (rec_id record) (staged_values record) = false)) ∧
    (∀ x, x ∈ written → is_Some (records st !! x) ∧ is_dirty self x st) ∧
    trace st' = trace st ++ omap (write_call st) (written ++ take 1 rest) ∧
    (∀ x, records st' !! x =
            if decide (x ∈ (written ++ take 1 rest))
            then committed <$> records st !! x else records st !! x) ∧
    (∀ l, dirties st' !! l =
            if decide (l = _dirty self)
            then (λ d, d ∖ list_to_set written) <$> dirties st !! l
            else dirties st !! l) ∧
    registries st' = registries st ∧ classes st' = classes st.
Proof.
  revert st. induction snapshot as [|r snapshot IH]; intros st Hnd Hrun.
  - inversion Hrun; subst. exists [], [].
    split; [done|]. split; [by left|]. split.
    { intros x Hx. by apply elem_of_nil in Hx. }
    split; [simpl; by rewrite app_nil_r|]. split.
    { intros x. rewrite decide_False; [done|].
      simpl. intros Hx. by apply elem_of_nil in Hx. }
    split; [|done]. intros l. case_decide; [|done].
    destruct (dirties st' !! l) as [d|]; simpl; [|done].
    f_equal. symmetry. apply difference_empty_L.
  - apply NoDup_cons in Hnd as [Hr Hnd]. cbn [commit_loop] in Hrun.
    apply bind_inv in Hrun. destruct Hrun as [(u & st1 & Hturn & Hrun)|(e & Hturn & ->)].
    + apply commit_record_run in Hturn
        as [(_ & ? & _)|(record & Hrec & Htrace & Hrecords & Hreg & Hcls & Hout)];
        [done|].
      destruct Hout as [(_ & _ & d & Hd & Hin & Hdirties)|(e & ? & _)]; [|done].
      destruct (IH _ Hnd Hrun)
        as (written & rest & -> & Hcase & Hdone & Htrace' & Hrecords' & Hdirties' & Hreg' & Hcls').
      assert (∀ x, x ∈ (written ++ take 1 rest) → x ≠ r) as Hne.
      { intros x Hx ->. apply Hr. apply elem_of_app in Hx as [Hx|Hx].
        - apply elem_of_app. by left.
        - apply elem_of_app. right. by apply (subseteq_take 1 rest). }
      exists (r :: written), rest. split; [done|]. split.
      { destruct Hcase as [?|(e & r' & rest' & -> & -> & He)]; [by left|right].
        exists e, r', rest'. repeat (split; [done|]). intros Hrpc.
        destruct (He Hrpc) as (record' & Hrec' & Hreply). exists record'.
        rewrite Hrecords, lookup_insert_ne in Hrec'.
        2:{ intros ->. apply Hr. apply elem_of_app. right. apply list_elem_of_here. }
        split; [done|]. rewrite <- Hreply, Htrace. csimpl.
        unfold write_call at 1. rewrite Hrec. simpl.
        rewrite <- app_assoc. simpl. do 3 f_equal. apply omap_ext_in.
        intros x Hx. unfold write_call. rewrite Hrecords, lookup_insert_ne; [done|].
        intros ->. apply (Hne x); [|done]. apply elem_of_app. by left. }
      split.
      { intros x Hx. apply elem_of_cons in Hx as [->|Hx].
        - split; [by rewrite Hrec|]. by exists d.
        - destruct (Hdone x Hx) as [Hsome [d' [Hd' Hx']]].
          assert (x ≠ r) as Hxr.
          { apply Hne. apply elem_of_app. by left. }
          split.
          + by rewrite Hrecords, lookup_insert_ne in Hsome.
          + exists d. split; [done|].
            rewrite Hdirties, lookup_insert_eq in Hd'. injection Hd' as <-.
            by apply elem_of_difference in Hx' as [? _]. }
      split.
      { rewrite Htrace', Htrace. simpl. unfold write_call at 2. rewrite Hrec. simpl.
        rewrite <- app_assoc. simpl. do 2 f_equal. apply omap_ext_in.
        intros x Hx. unfold write_call. rewrite Hrecords, lookup_insert_ne; [done|].
        intros ->. by apply (Hne _ Hx). }
      split.
      { intros x. rewrite Hrecords'. simpl.
        destruct (decide (x = r)) as [->|Hxr].
        - rewrite decide_False by (intros Hx; by apply (Hne _ Hx)).
          rewrite decide_True by apply list_elem_of_here.
          by rewrite Hrecords, lookup_insert_eq, Hrec.
        - rewrite Hrecords, lookup_insert_ne by done.
          apply decide_ext. rewrite elem_of_cons. tauto. }
      split; [|by rewrite Hreg', Hcls'].
      intros l. rewrite Hdirties', Hdirties.
      case_decide as Hl; [|by rewrite lookup_insert_ne].
      subst l. rewrite lookup_insert_eq, Hd. simpl. f_equal.
      apply difference_difference_l_L.
    + exists [], (r :: snapshot). simpl. split; [done|].
      apply commit_record_run in Hturn
        as [(Hrec & He & ->)|(record & Hrec & Htrace & Hrecords & Hreg & Hcls & Hout)].
      * split.
        { right. exists e, r, snapshot. repeat (split; [done|]).
          intros ->. done. }
        split. { intros x Hx. by apply elem_of_nil in Hx. }
        split. { unfold write_call. rewrite Hrec. simpl. by rewrite app_nil_r. }
        split.
        { intros x. case_decide as Hx; [|done].
          apply list_elem_of_singleton in Hx as ->. by rewrite Hrec. }
        split; [|done]. intros l. case_decide; [|done].
        destruct (dirties st !! l) as [d|]; simpl; [|done]. f_equal.
        symmetry. apply difference_empty_L.
      * destruct Hout as [(? & _)|(e' & He' & Hdirties & Hreply)]; [done|].
        injection He' as <-.
        split.
        { right. exists e, r, snapshot. repeat (split; [done|]). intros Hrpc.
          exists record. split; [done|]. csimpl. rewrite app_nil_r.
          by apply Hreply. }
        split. { intros x Hx. by apply elem_of_nil in Hx. }
        split. { unfold write_call. by rewrite Hrec. }
        split.
        { intros x. rewrite Hrecords. destruct (decide (x = r)) as [->|Hxr].
          - rewrite decide_True by apply list_elem_of_here.
            by rewrite lookup_insert_eq, Hrec.
          - rewrite lookup_insert_ne by done. rewrite decide_False; [done|].
            intros Hx. by apply list_elem_of_singleton in Hx. }
        split; [|done]. intros l. rewrite Hdirties. case_decide; [|done].
        destruct (dirties st !! l) as [d|]; simpl; [|done]. f_equal.
        symmetry. apply difference_empty_L.
Qed.

End CommitRun.

(** ** Commits that return, and commits that fail *)

Section CommitOk.

Context `{!Transport, !IterOrder, !FieldStore}.

Lemma staged_values_committed record : staged_values (committed record) = ∅.
Proof.
  apply map_eq. intros f. unfold staged_values, committed. simpl.
  rewrite lookup_omap, lookup_fmap, lookup_empty.
  destruct (_values_to_write record !! f) as [staged|]; simpl; [|done].
  apply lookup_delete_eq.
Qed.

Lemma staged_values_stage record field value :
  staged_values (stage record field value) = <[field := value]> (staged_values record).
Proof.
  apply map_eq. intros f. unfold staged_values, stage. simpl.
  rewrite lookup_omap. destruct (decide (f = field)) as [->|Hne].
  - rewrite !lookup_insert_eq. simpl. by rewrite lookup_insert_eq.
  - rewrite !lookup_insert_ne by done. by rewrite lookup_omap.
Qed.

(** The calls for the record at [r] among those of a snapshot. *)
Lemma filter_write_calls st r (snapshot : list loc) :
  NoDup snapshot →
  filter (is_write_of r) (omap (write_call st) snapshot) =
  if decide (r ∈ snapshot) then option_list (write_call st r) else [].
Proof.
  induction snapshot as [|x snapshot IH]; intros Hnd.
  - rewrite decide_False; [done|]. intros Hin. by apply elem_of_nil in Hin.
  - apply NoDup_cons in Hnd as [Hx Hnd]. csimpl.
    destruct (decide (x = r)) as [->|Hne].
    + rewrite decide_True by apply list_elem_of_here.
      assert (filter (is_write_of r) (omap (write_call st) snapshot) = []) as Hnone.
      { rewrite IH by done. by rewrite decide_False. }
      destruct (write_call st r) as [c|] eqn:Hc; simpl; [|done].
      unfold write_call in Hc. destruct (records st !! r) as [record|]; [|done].
      simpl in Hc. injection Hc as <-.
      rewrite filter_cons_True by (simpl; by apply bool_decide_pack).
      by rewrite Hnone.
    + assert (filter (is_write_of r) (option_list (write_call st x)) = []) as Hnone.
      { unfold write_call. destruct (records st !! x) as [record|]; simpl; [|done].
        rewrite filter_cons_False; [done|].
        simpl. intros Hw. by apply bool_decide_unpack in Hw. }
      destruct (write_call st x) as [c|] eqn:Hc; simpl in *.
      * destruct (decide (is_write_of r c)) as [Hw|Hw].
        { rewrite filter_cons_True in Hnone by done. done. }
        rewrite filter_cons_False, IH by done.
        apply decide_ext. rewrite elem_of_cons.
        split; [by right|intros [?|?]; [congruence|done]].
      * rewrite IH by done. apply decide_ext. rewrite elem_of_cons.
        split; [by right|intros [?|?]; [congruence|done]].
Qed.

Lemma commit_eq self st d :
  dirties st !! _dirty self = Some d →
  commit self st = commit_loop self (set_order d) st.
Proof.
  intros Hd. unfold commit. run_monad. by rewrite Hd.
Qed.

Lemma commit_stuck self st :
  dirties st !! _dirty self = None → commit self st = (Raise Stuck, st).
Proof.
  intros Hd. unfold commit. run_monad. by rewrite Hd.
Qed.

(** A call to [commit] that returns. *)
Lemma commit_ok self st st' d :
  dirties st !! _dirty self = Some d →
  commit self st = (Ok tt, st') →
  trace st' = trace st ++ omap (write_call st) (set_order d) ∧
  (∀ x, records st' !! x =
          if decide (x ∈ d) then committed <$> records st !! x else records st !! x) ∧
  (∀ x, x ∈ d → is_Some (records st !! x)) ∧
  dirties st' = <[_dirty self := ∅]> (dirties st) ∧
  registries st' = registries st ∧ classes st' = classes st.
Proof.
  intros Hd Hrun. rewrite (commit_eq _ _ _ Hd) in Hrun.
  apply commit_loop_run in Hrun as
    (written & rest & Hsnap & Hcase & Hdone & Htrace & Hrecords & Hdirties & Hreg & Hcls);
    [|apply set_order_NoDup].
  destruct Hcase as [[_ ->]|(e & r & rest' & ? & _)]; [|done].
  rewrite app_nil_r in Hsnap. subst written. simpl in *. rewrite app_nil_r in *.
  split; [done|]. split.
  { intros x. rewrite Hrecords. apply decide_ext. apply elem_of_set_order. }
  split.
  { intros x Hx. apply Hdone. by apply elem_of_set_order. }
  split; [|done].
  apply map_eq. intros l. rewrite Hdirties.
  destruct (decide (l = _dirty self)) as [->|Hne].
  - rewrite lookup_insert_eq, Hd. simpl. f_equal.
    apply set_eq. intros x. rewrite elem_of_difference, elem_of_list_to_set, elem_of_set_order.
    split; [tauto|]. intros Hx. by apply not_elem_of_empty in Hx.
  - by rewrite lookup_insert_ne.
Qed.

(** An assignment to a field of a record. *)
Lemma field_write_run r field value st o st' :
  field_write r field value st = (o, st') →
  (records st !! r = None ∧ o = Raise Stuck ∧ st' = st) ∨
  ∃ record,
    records st !! r = Some record ∧
    records st' = <[r := stage record field value]> (records st) ∧
    trace st' = trace st ∧ registries st' = registries st ∧ classes st' = classes st ∧
    ((∃ d, dirties st !! _dirty (rec_env record) = Some d ∧ o = Ok tt ∧
           dirties st' = <[_dirty (rec_env record) := {[r]} ∪ d]> (dirties st)) ∨
     (dirties st !! _dirty (rec_env record) = None ∧ o = Raise Stuck ∧
      dirties st' = dirties st)).
Proof.
  unfold field_write. run_monad.
  destruct (records st !! r) as [record|]; simpl.
  - destruct (dirties st !! _dirty (rec_env record)) as [d|] eqn:Hd; simpl;
      intros Hrun; inversion Hrun; subst; simpl; right; exists record;
      repeat (split; [done|]).
    + left. by exists d.
    + by right.
  - intros Hrun. inversion Hrun. by left.
Qed.

Lemma stage_rec_id record field value : rec_id (stage record field value) = rec_id record.
Proof. done. Qed.

Lemma stage_rec_env record field value : rec_env (stage record field value) = rec_env record.
Proof. done. Qed.

Lemma stage_all_rec_id assignments record :
  rec_id (stage_all record assignments) = rec_id record.
Proof.
  revert record. induction assignments as [|[f v] assignments IH]; intros record; [done|].
  simpl. by rewrite IH.
Qed.

Lemma stage_all_rec_env assignments record :
  rec_env (stage_all record assignments) = rec_env record.
Proof.
  revert record. induction assignments as [|[f v] assignments IH]; intros record; [done|].
  simpl. by rewrite IH.
Qed.

Lemma staged_values_stage_all assignments record :
  staged_values (stage_all record assignments) =
  foldl (λ values '(field, value), <[field := value]> values)
        (staged_values record) assignments.
Proof.
  revert record. induction assignments as [|[f v] assignments IH]; intros record; [done|].
  simpl. by rewrite IH, staged_values_stage.
Qed.

(** Assignments to fields of one record, one after the other. *)
Lemma field_writes_ok r assignments st st' record :
  records st !! r = Some record →
  field_writes r assignments st = (Ok tt, st') →
  records st' = <[r := stage_all record assignments]> (records st) ∧
  trace st' = trace st ∧ registries st' = registries st ∧ classes st' = classes st ∧
  (assignments = [] ∧ dirties st' = dirties st ∨
   ∃ d, dirties st !! _dirty (rec_env record) = Some d ∧
        dirties st' = <[_dirty (rec_env record) := {[r]} ∪ d]> (dirties st)).
Proof.
  revert st record. induction assignments as [|[f v] assignments IH];
    intros st record Hrec Hrun.
  - inversion Hrun; subst. simpl. rewrite insert_id by done.
    repeat (split; [done|]). by left.
  - cbn [field_writes] in Hrun. apply bind_inv in Hrun.
    destruct Hrun as [(u & st1 & Hwrite & Hrun)|(e & _ & ?)]; [|done].
    apply field_write_run in Hwrite
      as [(_ & ? & _)|(record' & Hrec' & Hrecords & Htrace & Hreg & Hcls & Hout)];
      [done|].
    rewrite Hrec in Hrec'. injection Hrec' as <-.
    destruct Hout as [(d & Hd & _ & Hdirties)|(_ & ? & _)]; [|done].
    assert (records st1 !! r = Some (stage record f v)) as Hrec1.
    { by rewrite Hrecords, lookup_insert_eq. }
    destruct (IH _ _ Hrec1 Hrun) as (Hrecords' & Htrace' & Hreg' & Hcls' & Hdirties').
    split. { by rewrite Hrecords', Hrecords, insert_insert_eq. }
    split; [congruence|]. split; [congruence|]. split; [congruence|].
    right. exists d. split; [done|].
    destruct Hdirties' as [[_ ->]|(d' & Hd' & ->)]; [done|].
    rewrite stage_rec_env, Hdirties, lookup_insert_eq in Hd'. injection Hd' as <-.
    rewrite stage_rec_env, Hdirties, insert_insert_eq. f_equal.
    apply set_eq. intros y. rewrite !elem_of_union. tauto.
Qed.

Lemma set_order_singleton r : set_order {[r]} = [r].
Proof.
  apply Permutation_singleton_r. by rewrite set_order_perm, elements_singleton.
Qed.

(** When the server accepts every write call, the loop of [commit] over
    records of the store that are in the dirty set returns. *)
Lemma commit_loop_returns self snapshot st d :
  (∀ calls r id values, write_reply calls r id values = true) →
  dirties st !! _dirty self = Some d →
  NoDup snapshot →
  (∀ r, r ∈ snapshot → r ∈ d ∧ is_Some (records st !! r)) →
  ∃ st', commit_loop self snapshot st = (Ok tt, st').
Proof.
  intros Haccept. revert st d.
  induction snapshot as [|r snapshot IH]; intros st d Hd Hnd Hin.
  - by exists st.
  - apply NoDup_cons in Hnd as [Hr Hnd].
    destruct (Hin r) as [Hrd [record Hrec]]; [apply list_elem_of_here|].
    cbn [commit_loop].
    assert (commit_record self r st =
              (Ok tt, set_dirties <[_dirty self := d ∖ {[r]}]>
                        (log_call (Write r (rec_id record) (staged_values record))
                           (set_records <[r := committed record]> st)))) as Hturn.
    { rewrite (commit_record_eq _ _ _ _ Hrec). simpl. rewrite Haccept.
      unfold dirty_remove. run_monad.
      rewrite Hd. simpl. by rewrite decide_True. }
    rewrite (bind_ok _ _ _ _ _ Hturn).
    apply (IH _ (d ∖ {[r]})); [simpl; apply lookup_insert_eq|done|].
    intros x Hx. assert (x ≠ r) as Hne by (by intros ->).
    destruct (Hin x) as [Hxd Hsome]; [by apply list_elem_of_further|].
    split.
    + apply elem_of_difference. split; [done|]. by rewrite elem_of_singleton.
    + simpl. by rewrite lookup_insert_ne.
Qed.

Lemma commit_returns self st d :
  (∀ calls r id values, write_reply calls r id values = true) →
  dirties st !! _dirty self = Some d →
  (∀ r, r ∈ d → is_Some (records st !! r)) →
  ∃ st', commit self st = (Ok tt, st').
Proof.
  intros Haccept Hd Hrecords. rewrite (commit_eq _ _ _ Hd).
  apply (commit_loop_returns _ _ _ d); [done|done|apply set_order_NoDup|].
  intros r Hr. apply elem_of_set_order in Hr. split; [done|by apply Hrecords].
Qed.

(** C2. A call to [commit] that returns has, for every record [r] of the
    dirty set, issued exactly one remote write call for [r], which carries in
    one mapping all the values that were staged under the id of the record
    (its K fields); these staged values are popped, and the record has left
    the dirty set. In particular, N assignments to fields of one record
    followed by one [commit] cost one write call for that record, with the
    values assigned, and this is the only call when no other record was
    dirty. And [commit] does return when the server accepts every write call
    and the dirty records are records of the store. *)
Theorem commit_batches_writes :
  (∀ self st st' d r,
     dirties st !! _dirty self = Some d →
     commit self st = (Ok tt, st') →
     r ∈ d →
     ∃ record calls,
       records st !! r = Some record ∧
       trace st' = trace st ++ calls ∧
       filter (is_write_of r) calls =
         [Write r (rec_id record) (staged_values record)] ∧
       records st' !! r = Some (committed record) ∧
       staged_values (committed record) = ∅ ∧
       ¬ is_dirty self r st') ∧
  (∀ r record assignments st0 st st',
     records st0 !! r = Some record →
     assignments ≠ [] →
     field_writes r assignments st0 = (Ok tt, st) →
     commit (rec_env record) st = (Ok tt, st') →
     ∃ calls,
       trace st' = trace st0 ++ calls ∧
       filter (is_write_of r) calls =
         [Write r (rec_id record)
            (foldl (λ values '(field, value), <[field := value]> values)
                   (staged_values record) assignments)] ∧
       (dirties st0 !! _dirty (rec_env record) = Some ∅ →
        length calls = 1)) ∧
  (∀ self st d,
     (∀ calls r id values, write_reply calls r id values = true) →
     dirties st !! _dirty self = Some d →
     (∀ r, r ∈ d → is_Some (records st !! r)) →
     ∃ st', commit self st = (Ok tt, st')).
Proof.
  assert (∀ self st st' d r,
     dirties st !! _dirty self = Some d →
     commit self st = (Ok tt, st') →
     r ∈ d →
     ∃ record,
       records st !! r = Some record ∧
       filter (is_write_of r) (omap (write_call st) (set_order d)) =
         [Write r (rec_id record) (staged_values record)] ∧
       records st' !! r = Some (committed record) ∧
       ¬ is_dirty self r st') as Hone.
  { intros self st st' d r Hd Hrun Hr.
    destruct (commit_ok _ _ _ _ Hd Hrun)
      as (Htrace & Hrecords & Hsome & Hdirties & _).
    destruct (Hsome r Hr) as [record Hrec]. exists record.
    split; [done|]. split.
    { rewrite filter_write_calls by apply set_order_NoDup.
      rewrite decide_True by (by apply elem_of_set_order).
      unfold write_call. by rewrite Hrec. }
    split.
    { by rewrite Hrecords, decide_True, Hrec. }
    intros (d' & Hd' & Hin). rewrite Hdirties, lookup_insert_eq in Hd'.
    injection Hd' as <-. by apply not_elem_of_empty in Hin. }
  split; [|split].
  - intros self st st' d r Hd Hrun Hr.
    destruct (Hone _ _ _ _ _ Hd Hrun Hr) as (record & Hrec & Hcalls & Hrec' & Hclean).
    exists record, (omap (write_call st) (set_order d)).
    split; [done|]. split; [by apply (commit_ok _ _ _ _ Hd Hrun)|].
    split; [done|]. split; [done|]. split; [apply staged_values_committed|done].
  - intros r record assignments st0 st st' Hrec Hsome Hwrites Hrun.
    destruct (field_writes_ok _ _ _ _ _ Hrec Hwrites)
      as (Hrecords & Htrace & _ & _ & [[? _]|(d & Hd & Hdirties)]); [done|].
    assert (dirties st !! _dirty (rec_env record) = Some ({[r]} ∪ d)) as Hd'.
    { by rewrite Hdirties, lookup_insert_eq. }
    assert (r ∈ {[r]} ∪ d) as Hr.
    { apply elem_of_union. left. by apply elem_of_singleton. }
    destruct (Hone _ _ _ _ _ Hd' Hrun Hr) as (record' & Hrec' & Hcalls & _).
    rewrite Hrecords, lookup_insert_eq in Hrec'. injection Hrec' as <-.
    rewrite stage_all_rec_id, staged_values_stage_all in Hcalls.
    exists (omap (write_call st) (set_order ({[r]} ∪ d))).
    split.
    { rewrite <- Htrace. by apply (commit_ok _ _ _ _ Hd' Hrun). }
    split; [done|].
    intros Hempty. rewrite Hd in Hempty. injection Hempty as ->.
    rewrite (right_id_L ∅ (∪)), set_order_singleton. csimpl.
    unfold write_call. by rewrite Hrecords, lookup_insert_eq.
  - intros self st d Haccept Hd Hsome. by apply (commit_returns _ _ d).
Qed.

Lemma commit_loop_app self (written rest : list loc) st :
  commit_loop self (written ++ rest) st =
  bind (commit_loop self written) (λ _, commit_loop self rest) st.
Proof.
  revert st. induction written as [|x written IH]; intros st; [done|].
  cbn [app commit_loop]. unfold bind.
  destruct (commit_record self x st) as [[u|e] st1]; [|done].
  by rewrite IH.
Qed.

Lemma elem_of_write_calls st (snapshot : list loc) c :
  c ∈ omap (write_call st) snapshot ↔
  ∃ x record, x ∈ snapshot ∧ records st !! x = Some record ∧
              c = Write x (rec_id record) (staged_values record).
Proof.
  rewrite list_elem_of_omap. unfold write_call. split.
  - intros (x & Hx & Hc). destruct (records st !! x) as [record|] eqn:Hrec; [|done].
    simpl in Hc. injection Hc as <-. by exists x, record.
  - intros (x & record & Hx & Hrec & ->). exists x. by rewrite Hrec.
Qed.

(** C3. Let the records that [commit] finds in the dirty set be, in the
    order in which it takes them, [written], then [r], then [rest]. If the
    records [written] are written and the remote write call of [r] fails, then
    [commit] raises the remote-call error; the records [written] are committed
    (their write calls were made, their staged values stored) and are no
    longer dirty; [r] is still dirty; the records [rest] were not attempted:
    no call was made for them, they are still dirty and are exactly as they
    were, staged values included; and a further call to [commit] makes
    calls for [r] and [rest] only. *)
Theorem commit_failure_is_partial self st d written r rest st1 st2 :
  dirties st !! _dirty self = Some d →
  set_order d = written ++ r :: rest →
  commit_loop self written st = (Ok tt, st1) →
  commit_record self r st1 = (Raise RPCError, st2) →
  commit self st = (Raise RPCError, st2) ∧
  trace st2 = trace st ++ omap (write_call st) (written ++ [r]) ∧
  (∀ x, x ∈ written →
     ¬ is_dirty self x st2 ∧
     ∃ record, records st !! x = Some record ∧
               records st2 !! x = Some (committed record) ∧
               Write x (rec_id record) (staged_values record) ∈ trace st2) ∧
  is_dirty self r st2 ∧
  (∀ x, x ∈ rest → is_dirty self x st2 ∧ records st2 !! x = records st !! x) ∧
  (∀ o st3, commit self st2 = (o, st3) →
     ∃ calls, trace st3 = trace st2 ++ calls ∧
              ∀ c, c ∈ calls → ∃ x id values, c = Write x id values ∧ x ∈ r :: rest).
Proof.
  intros Hd Horder Hdone Hfail.
  assert (NoDup (written ++ r :: rest)) as Hnd.
  { rewrite <- Horder. apply set_order_NoDup. }
  apply NoDup_app in Hnd as (Hnd_done & Hdisj & Hnd_rest).
  apply NoDup_cons in Hnd_rest as [Hr_rest Hnd_rest].
  assert (r ∉ written) as Hr_done.
  { intros Hin. apply (Hdisj _ Hin), list_elem_of_here. }
  assert (∀ x, x ∈ d ↔ x ∈ written ∨ x = r ∨ x ∈ rest) as Hmem.
  { intros x. rewrite <- elem_of_set_order, Horder, elem_of_app, elem_of_cons. tauto. }
  (* the records written *)
  destruct (commit_loop_run _ _ _ _ _ Hnd_done Hdone)
    as (written' & rest' & Hsplit & Hcase & Hsome & Htrace1 & Hrecords1 & Hdirties1 & _).
  destruct Hcase as [[_ ->]|(e & ? & ? & ? & _)]; [|done].
  rewrite app_nil_r in Hsplit. subst written'. simpl in *. rewrite app_nil_r in *.
  (* the record whose write fails *)
  destruct (commit_record_run _ _ _ _ _ Hfail)
    as [(_ & ? & _)|(record & Hrec1 & Htrace2 & Hrecords2 & _ & _ & Hout)]; [done|].
  destruct Hout as [[? _]|(e & _ & Hdirties2 & _)]; [done|].
  assert (records st !! r = Some record) as Hrec.
  { by rewrite Hrecords1, decide_False in Hrec1. }
  assert (dirties st2 !! _dirty self = Some (d ∖ list_to_set written)) as Hd2.
  { by rewrite Hdirties2, Hdirties1, decide_True, Hd. }
  split.
  { rewrite (commit_eq _ _ _ Hd), Horder, commit_loop_app.
    rewrite (bind_ok _ _ _ _ _ Hdone).
    cbn [commit_loop]. by rewrite (bind_raise _ _ _ _ _ Hfail). }
  split.
  { rewrite Htrace2, Htrace1, omap_app, <- app_assoc. do 2 f_equal.
    csimpl. unfold write_call. by rewrite Hrec. }
  split.
  { intros x Hx. split.
    - intros (d' & Hd' & Hin). rewrite Hd2 in Hd'. injection Hd' as <-.
      apply elem_of_difference in Hin as [_ Hin]. apply Hin.
      by apply elem_of_list_to_set.
    - destruct (Hsome x Hx) as [[record_x Hrec_x] _]. exists record_x.
      split; [done|]. split.
      + rewrite Hrecords2, lookup_insert_ne by (by intros ->).
        by rewrite Hrecords1, decide_True, Hrec_x.
      + rewrite Htrace2, Htrace1. apply elem_of_app. left. apply elem_of_app. right.
        apply elem_of_write_calls. by exists x, record_x. }
  split.
  { exists (d ∖ list_to_set written). split; [done|].
    apply elem_of_difference. split; [apply Hmem; tauto|].
    by rewrite elem_of_list_to_set. }
  split.
  { intros x Hx.
    assert (x ∉ written) as Hx_done.
    { intros Hin. apply (Hdisj _ Hin). by apply list_elem_of_further. }
    assert (x ≠ r) as Hx_r by (by intros ->).
    split.
    - exists (d ∖ list_to_set written). split; [done|].
      apply elem_of_difference. split; [apply Hmem; tauto|].
      by rewrite elem_of_list_to_set.
    - rewrite Hrecords2, lookup_insert_ne by done.
      by rewrite Hrecords1, decide_False. }
  intros o st3 Hretry.
  rewrite (commit_eq _ _ _ Hd2) in Hretry.
  apply commit_loop_run in Hretry
    as (written' & rest' & Hsplit & _ & _ & Htrace3 & _); [|apply set_order_NoDup].
  eexists. split; [exact Htrace3|].
  intros c Hc. apply elem_of_write_calls in Hc as (x & record_x & Hx & _ & ->).
  exists x, (rec_id record_x), (staged_values record_x). split; [done|].
  assert (x ∈ set_order (d ∖ list_to_set written)) as Hin.
  { rewrite Hsplit. apply elem_of_app in Hx as [Hx|Hx].
    - apply elem_of_app. by left.
    - apply elem_of_app. right. by apply (subseteq_take 1 rest'). }
  apply elem_of_set_order, elem_of_difference in Hin as [Hin Hnot].
  rewrite elem_of_list_to_set in Hnot. apply Hmem in Hin.
  rewrite elem_of_cons. tauto.
Qed.

End CommitOk.

(** ** The cache and the staged values of the records *)

Section CacheAndBuffers.

Context `{!Transport, !IterOrder, !FieldStore}.

(** What [commit] does to a record of the store, whatever its outcome. *)
Lemma commit_records self st o st' :
  commit self st = (o, st') →
  ∃ calls attempted,
    trace st' = trace st ++ omap (write_call st) attempted ∧
    calls = omap (write_call st) attempted ∧
    (∀ x, x ∈ attempted → is_dirty self x st) ∧
    (∀ x, records st' !! x =
            if decide (x ∈ attempted) then committed <$> records st !! x
            else records st !! x).
Proof.
  intros Hrun. destruct (dirties st !! _dirty self) as [d|] eqn:Hd.
  - rewrite (commit_eq _ _ _ Hd) in Hrun.
    apply commit_loop_run in Hrun
      as (written & rest & Hsplit & _ & _ & Htrace & Hrecords & _); [|apply set_order_NoDup].
    exists (omap (write_call st) (written ++ take 1 rest)), (written ++ take 1 rest).
    repeat (split; [done|]). split; [|done].
    intros x Hx. exists d. split; [done|].
    apply elem_of_set_order. rewrite Hsplit.
    apply elem_of_app in Hx as [Hx|Hx]; apply elem_of_app; [by left|right].
    by apply (subseteq_take 1 rest).
  - rewrite (commit_stuck _ _ Hd) in Hrun. inversion Hrun; subst.
    exists [], []. split; [simpl; by rewrite app_nil_r|]. split; [done|].
    split; [intros x Hx; by apply elem_of_nil in Hx|].
    intros x. rewrite decide_False; [done|]. intros Hx. by apply elem_of_nil in Hx.
Qed.

(** C10. Whatever the outcome of [commit], every record [r] of the store is
    still there with the same id, and in each of the per-field mappings of
    its [_values_to_write] the entries that are keyed by another id than its
    own are as they were; the remote calls that [commit] makes carry, for a
    record, the values that were staged under its own id, and nothing
    else. *)
Theorem commit_pops_own_id_only self st o st' r record :
  commit self st = (o, st') →
  records st !! r = Some record →
  (∃ record',
     records st' !! r = Some record' ∧
     rec_id record' = rec_id record ∧
     dom (_values_to_write record') = dom (_values_to_write record) ∧
     ∀ field id, id ≠ rec_id record →
       _values_to_write record' !! field ≫= (λ staged : gmap Z pyval, staged !! id) =
       _values_to_write record !! field ≫= (λ staged : gmap Z pyval, staged !! id)) ∧
  (∃ calls,
     trace st' = trace st ++ calls ∧
     ∀ c, c ∈ calls →
       ∃ x record_x, records st !! x = Some record_x ∧
                     c = Write x (rec_id record_x) (staged_values record_x)).
Proof.
  intros Hrun Hrec.
  destruct (commit_records _ _ _ _ Hrun) as (calls & attempted & Htrace & -> & _ & Hrecords).
  split.
  - specialize (Hrecords r). rewrite Hrec in Hrecords. simpl in Hrecords.
    case_decide.
    + exists (committed record). split; [done|]. split; [done|]. split.
      { simpl. apply dom_fmap_L. }
      intros field id Hid. simpl. rewrite lookup_fmap.
      destruct (_values_to_write record !! field) as [staged|]; simpl; [|done].
      by apply lookup_delete_ne.
    + by exists record.
  - eexists. split; [exact Htrace|]. intros c Hc.
    apply elem_of_write_calls in Hc as (x & record_x & _ & Hx & ->).
    by exists x, record_x.
Qed.

(** When [commit] stops on a remote-call error, the record whose write call
    failed is still dirty, its staged values are popped and stored. *)
Lemma commit_remote_failure self st st' :
  commit self st = (Raise RPCError, st') →
  ∃ r record calls,
    records st !! r = Some record ∧
    trace st' = trace st ++ calls ++ [Write r (rec_id record) (staged_values record)] ∧
    write_reply (trace st ++ calls) r (rec_id record) (staged_values record) = false ∧
    is_dirty self r st' ∧
    records st' !! r = Some (committed record).
Proof.
  intros Hrun. destruct (dirties st !! _dirty self) as [d|] eqn:Hd.
  2:{ by rewrite (commit_stuck _ _ Hd) in Hrun. }
  rewrite (commit_eq _ _ _ Hd) in Hrun.
  pose proof (set_order_NoDup d) as Hnd.
  apply commit_loop_run in Hrun
    as (written & rest & Hsplit & Hcase & _ & Htrace & Hrecords & Hdirties & _);
    [|exact Hnd].
  destruct Hcase as [[? _]|(e & r & rest' & He & -> & Hfail)]; [done|].
  injection He as <-.
  destruct (Hfail eq_refl) as (record & Hrec & Hreply).
  exists r, record, (omap (write_call st) written). split; [done|].
  split.
  { rewrite Htrace, omap_app. csimpl. unfold write_call at 2. by rewrite Hrec. }
  split; [done|]. split.
  { exists (d ∖ list_to_set written). split.
    - by rewrite Hdirties, decide_True, Hd.
    - rewrite Hsplit in Hnd. apply NoDup_app in Hnd as (_ & Hdisj & _).
      apply elem_of_difference. split.
      + apply elem_of_set_order. rewrite Hsplit. apply elem_of_app. right.
        apply list_elem_of_here.
      + rewrite elem_of_list_to_set. intros Hin.
        apply (Hdisj _ Hin), list_elem_of_here. }
  rewrite Hrecords, decide_True, Hrec; [done|].
  apply elem_of_app. right. apply list_elem_of_here.
Qed.

(** C1, as the code has it. The cached values [_values] of a record are
    left alone by an assignment to a field and by [invalidate]; [commit]
    changes them by the [store] of the descriptors only, which it calls for
    the staged values of a record before it issues the remote write call of
    that record. So when [commit] stops on a remote-call error, the record
    [r] whose write call failed (the last call made) is still dirty, its
    staged values are popped, and its cached values are already the stored
    ones. *)
Theorem store_comes_before_write :
  (∀ r field value st o st' x,
     field_write r field value st = (o, st') →
     _values <$> records st' !! x = _values <$> records st !! x) ∧
  (∀ self st o st', invalidate self st = (o, st') → records st' = records st) ∧
  (∀ self st o st' x record,
     commit self st = (o, st') →
     records st !! x = Some record →
     ∃ record', records st' !! x = Some record' ∧
                (_values record' = _values record ∨ _values record' = stored record)) ∧
  (∀ self st st',
     commit self st = (Raise RPCError, st') →
     ∃ r record calls,
       records st !! r = Some record ∧
       trace st' =
         (trace st ++ calls ++ [Write r (rec_id record) (staged_values record)]) ∧
       write_reply (trace st ++ calls) r (rec_id record) (staged_values record) = false ∧
       is_dirty self r st' ∧
       records st' !! r = Some (committed record) ∧
       _values (committed record) = stored record ∧
       staged_values (committed record) = ∅).
Proof.
  split; [|split; [|split]].
  - intros r field value st o st' x Hrun.
    apply field_write_run in Hrun
      as [(_ & _ & ->)|(record & Hrec & -> & _)]; [done|].
    destruct (decide (x = r)) as [->|Hne].
    + by rewrite lookup_insert_eq, Hrec.
    + by rewrite lookup_insert_ne.
  - intros self st o st'. unfold invalidate. run_monad.
    destruct (dirties st !! _dirty self); simpl; intros Hrun; by inversion Hrun.
  - intros self st o st' x record Hrun Hrec.
    destruct (commit_records _ _ _ _ Hrun) as (_ & attempted & _ & _ & _ & Hrecords).
    specialize (Hrecords x). rewrite Hrec in Hrecords. simpl in Hrecords.
    case_decide.
    + exists (committed record). split; [done|]. by right.
    + exists record. split; [done|]. by left.
  - intros self st st' Hrun.
    destruct (commit_remote_failure _ _ _ Hrun)
      as (r & record & calls & Hrec & Htrace & Hreply & Hdirty & Hrec').
    exists r, record, calls. do 6 (split; [done|]).
    apply staged_values_committed.
Qed.

(** C4, as the code has it. [invalidate] makes no remote call and changes
    no record: the cached values and the staged values of every record are
    as they were. In an environment of the store it returns, and the dirty
    set is then empty; a [commit] that follows makes no call. *)
Theorem invalidate_clears_dirty_set_only self st :
  trace (run (invalidate self) st) = trace st ∧
  records (run (invalidate self) st) = records st ∧
  registries (run (invalidate self) st) = registries st ∧
  (∀ r, ¬ is_dirty self r (run (invalidate self) st)) ∧
  (is_Some (dirties st !! _dirty self) →
   outcome (invalidate self) st = Ok tt ∧
   dirties (run (invalidate self) st) !! _dirty self = Some ∅ ∧
   commit self (run (invalidate self) st) = (Ok tt, run (invalidate self) st)).
Proof.
  unfold run, outcome, invalidate. run_monad.
  destruct (dirties st !! _dirty self) as [d|] eqn:Hd; simpl.
  - repeat (split; [done|]). split.
    + intros r (d' & Hd' & Hin). simpl in Hd'. rewrite lookup_insert_eq in Hd'.
      injection Hd' as <-. by apply not_elem_of_empty in Hin.
    + intros _. split; [done|]. rewrite lookup_insert_eq. split; [done|].
      erewrite commit_eq by (simpl; apply lookup_insert_eq).
      assert (set_order ∅ = []) as ->; [|done].
      apply Permutation_nil_r. by rewrite set_order_perm, elements_empty.
  - repeat (split; [done|]). split.
    + intros r (d' & Hd' & _). by rewrite Hd in Hd'.
    + by intros [? ?].
Qed.

End CacheAndBuffers.

(** ** The registry and the derived environments *)

Section Registry.

Context `{!Transport, !IterOrder}.

Lemma init_run db uid context st :
  __init__ db uid context st =
  (Ok {| _db := db; _uid := uid; _context := context;
         _registry := fresh (dom (registries st));
         _dirty := fresh (dom (dirties st)) |},
   set_dirties <[fresh (dom (dirties st)) := ∅]>
     (set_registries <[fresh (dom (registries st)) := ∅]> st)).
Proof. reflexivity. Qed.

Lemma call_run self context st :
  __call__ self context st =
  (Ok {| _db := _db self; _uid := _uid self;
         _context := match context with None => _context self | Some c => c end;
         _registry := _registry self; _dirty := _dirty self |},
   set_dirties <[fresh (dom (dirties st)) := ∅]>
     (set_registries <[fresh (dom (registries st)) := ∅]> st)).
Proof. reflexivity. Qed.

Lemma new_record_run env id cache fields st :
  new_record env id cache fields st =
  (Ok (fresh (dom (records st))),
   set_records
     <[fresh (dom (records st)) :=
         {| rec_id := id; rec_env := env; _values := cache;
            _values_to_write := gset_to_gmap ∅ (list_to_set fields) |}]> st).
Proof. reflexivity. Qed.

Lemma create_model_class_run self model st :
  _create_model_class self model st =
  match fields_get_reply (trace st) model with
  | None => (Raise RPCError, log_call (FieldsGet model) st)
  | Some fields_get =>
      match class_attrs self model fields_get with
      | Ok attrs =>
          (Ok (fresh (dom (classes st))),
           set_classes
             <[fresh (dom (classes st)) :=
                 {| cls_name := replace_char "."%char "_"%char model;
                    cls_attrs := attrs |}]>
             (log_call (FieldsGet model) st))
      | Raise e => (Raise e, log_call (FieldsGet model) st)
      end
  end.
Proof.
  unfold _create_model_class, execute_fields_get, class_attrs, new_class, lift,
    bind, gets, modify, expect, rbind. simpl.
  destruct (fields_get_reply (trace st) model) as [fields_get|]; simpl; [|done].
  destruct (add_fields _ _) as [attrs|e]; simpl; [|done].
  by destruct (add_name_field attrs).
Qed.

Lemma getitem_run self model st :
  __getitem__ self model st =
  match registries st !! _registry self with
  | None => (Raise Stuck, st)
  | Some reg =>
      match reg !! model with
      | Some cls => (Ok cls, st)
      | None =>
          match _create_model_class self model st with
          | (Ok cls, st1) =>
              (Ok cls, set_registries <[_registry self := <[model := cls]> reg]> st1)
          | (Raise e, st1) => (Raise e, st1)
          end
      end
  end.
Proof.
  unfold __getitem__. run_monad.
  destruct (registries st !! _registry self) as [reg|] eqn:Hreg; simpl; [|done].
  destruct (reg !! model) as [cls|] eqn:Hcls; simpl.
  - rewrite Hreg. simpl. by rewrite Hcls.
  - rewrite create_model_class_run.
    destruct (fields_get_reply (trace st) model) as [fields_get|]; simpl; [|done].
    destruct (class_attrs self model fields_get) as [attrs|e]; simpl; [|done].
    rewrite Hreg. simpl. rewrite lookup_insert_eq. simpl.
    by rewrite lookup_insert_eq.
Qed.

(** A lookup of a model leaves the dirty sets and the records alone. *)
Lemma getitem_frame self model st o st' :
  __getitem__ self model st = (o, st') →
  dirties st' = dirties st ∧ records st' = records st.
Proof.
  rewrite getitem_run, create_model_class_run.
  destruct (registries st !! _registry self) as [reg|]; [|by inversion 1].
  destruct (reg !! model) as [cls|]; [by inversion 1|].
  destruct (fields_get_reply (trace st) model) as [fields_get|]; [|by inversion 1].
  destruct (class_attrs self model fields_get) as [attrs|e]; by inversion 1.
Qed.

Lemma add_field_columns field_name Field attrs columns :
  attrs !! "_columns" = Some (AColumns columns) →
  field_name ≠ "_columns" →
  ∃ attrs', add_field field_name Field attrs = Ok attrs' ∧
            attrs' !! "_columns" = Some (AColumns (<[field_name := Field]> columns)).
Proof.
  intros Hcolumns Hne. unfold add_field, attrs_columns. rewrite Hcolumns. simpl.
  eexists. split; [done|]. by rewrite lookup_insert_ne, lookup_insert_eq.
Qed.

Lemma add_fields_columns items attrs columns :
  attrs !! "_columns" = Some (AColumns columns) →
  (∀ item, item ∈ items → item.1 ≠ "_columns") →
  ∃ attrs' columns', add_fields items attrs = Ok attrs' ∧
                     attrs' !! "_columns" = Some (AColumns columns').
Proof.
  revert attrs columns. induction items as [|[field_name field_data] items IH];
    intros attrs columns Hcolumns Hitems.
  - by exists attrs, columns.
  - cbn [add_fields].
    assert (∀ item, item ∈ items → item.1 ≠ "_columns") as Hrest.
    { intros item Hin. apply Hitems. by apply list_elem_of_further. }
    case_bool_decide.
    + simpl. by apply (IH _ columns).
    + destruct (add_field_columns field_name (generate_field field_name field_data)
                  attrs columns Hcolumns) as (attrs' & -> & Hcolumns').
      { apply (Hitems (field_name, field_data)), list_elem_of_here. }
      simpl. by apply (IH _ _ Hcolumns').
Qed.

(** The class is made whenever the server describes no field that is called
    [_columns]. *)
Lemma class_attrs_ok self model fields_get :
  fields_get !! "_columns" = None →
  ∃ attrs, class_attrs self model fields_get = Ok attrs.
Proof.
  intros Hnone. unfold class_attrs.
  destruct (add_fields_columns (dict_items fields_get) (initial_attrs self model) ∅)
    as (attrs & columns & -> & Hcolumns).
  { unfold initial_attrs. apply lookup_insert_eq. }
  { intros [k v] Hin. simpl. intros ->. unfold dict_items in Hin.
    apply list_elem_of_omap in Hin as (k & _ & Hkv).
    destruct (fields_get !! k) eqn:Hget; [|done]. simpl in Hkv.
    injection Hkv as -> _. by rewrite Hnone in Hget. }
  simpl. unfold add_name_field, attrs_columns. rewrite Hcolumns. simpl.
  case_bool_decide; [by eexists|].
  destruct (add_field_columns "name"
              (generate_field "name"
                 (PDict [("type", PStr "text"); ("string", PStr "Name");
                         ("readonly", PBool true)]))
              attrs columns Hcolumns) as (attrs' & -> & _); [done|].
  by eexists.
Qed.

(** The first lookup of a model returns when the server answers the
    [fields_get] call with such a description. *)
Lemma getitem_miss_returns self model st reg fields_get :
  registries st !! _registry self = Some reg →
  reg !! model = None →
  fields_get_reply (trace st) model = Some fields_get →
  fields_get !! "_columns" = None →
  ∃ cls st1, __getitem__ self model st = (Ok cls, st1).
Proof.
  intros Hreg Hmodel Hreply Hnone.
  destruct (class_attrs_ok self model fields_get Hnone) as [attrs Hattrs].
  rewrite getitem_run, Hreg, Hmodel, create_model_class_run, Hreply, Hattrs.
  by eexists _, _.
Qed.

(** C6. In an environment whose registry has no entry for the model yet,
    a lookup [environment[model]] that returns a proxy is followed by a
    second lookup that returns the very same proxy object; the first lookup
    has made one [fields_get] call, the second one changes nothing, so one
    call is made across the two. *)
Theorem getitem_is_memoized self model st reg cls st1 :
  registries st !! _registry self = Some reg →
  reg !! model = None →
  __getitem__ self model st = (Ok cls, st1) →
  __getitem__ self model st1 = (Ok cls, st1) ∧
  trace st1 = trace st ++ [FieldsGet model] ∧
  (registries st1 !! _registry self ≫= λ reg1 : gmap string loc, reg1 !! model) = Some cls ∧
  is_Some (classes st1 !! cls).
Proof.
  intros Hreg Hmodel. rewrite getitem_run, Hreg, Hmodel, create_model_class_run.
  destruct (fields_get_reply (trace st) model) as [fields_get|]; [|by inversion 1].
  destruct (class_attrs self model fields_get) as [attrs|e]; [|by inversion 1].
  intros Hrun. injection Hrun as <- <-.
  rewrite getitem_run. simpl. rewrite !lookup_insert_eq. simpl.
  by rewrite !lookup_insert_eq.
Qed.

(** A lookup of a model that is in the registry makes no call. *)
Lemma getitem_hit self model st reg cls :
  registries st !! _registry self = Some reg →
  reg !! model = Some cls →
  __getitem__ self model st = (Ok cls, st).
Proof. intros Hreg Hmodel. by rewrite getitem_run, Hreg, Hmodel. Qed.

(** C7. In an environment whose registry has no entry for the model, a
    lookup whose [fields_get] call fails raises the remote-call error and
    leaves the registry (and the classes) as they were: there is no entry for
    the model. More generally the lookup either returns a new class that is
    in the store and under the model name in the registry, or raises and
    leaves every registry as it was. *)
Theorem getitem_failure_caches_nothing self model st reg :
  registries st !! _registry self = Some reg →
  reg !! model = None →
  (fields_get_reply (trace st) model = None →
   ∃ st', __getitem__ self model st = (Raise RPCError, st') ∧
          trace st' = trace st ++ [FieldsGet model] ∧
          registries st' = registries st ∧ classes st' = classes st ∧
          (registries st' !! _registry self ≫= λ reg' : gmap string loc, reg' !! model) = None) ∧
  (∀ o st', __getitem__ self model st = (o, st') →
     (∃ cls, o = Ok cls ∧ classes st !! cls = None ∧ is_Some (classes st' !! cls) ∧
             registries st' = <[_registry self := <[model := cls]> reg]> (registries st)) ∨
     (∃ e, o = Raise e ∧ registries st' = registries st ∧ classes st' = classes st)).
Proof.
  intros Hreg Hmodel. split.
  - intros Hreply. eexists. rewrite getitem_run, Hreg, Hmodel, create_model_class_run, Hreply.
    split; [done|]. simpl. repeat (split; [done|]). by rewrite Hreg.
  - intros o st'. rewrite getitem_run, Hreg, Hmodel, create_model_class_run.
    destruct (fields_get_reply (trace st) model) as [fields_get|].
    2:{ inversion 1. right. by exists RPCError. }
    destruct (class_attrs self model fields_get) as [attrs|e].
    2:{ inversion 1. right. by exists e. }
    inversion 1. left. eexists. split; [done|]. simpl. split.
    + apply not_elem_of_dom, is_fresh.
    + by rewrite lookup_insert_eq.
Qed.

(** C8. [environment(c)] returns an environment whose registry and dirty
    set are the objects of the original (the same locations), whose context
    is [c] and whose [db] and [uid] are those of the original; the call
    changes no record and leaves the registry and the dirty set of the
    original as they are. An assignment to a field of a record of either
    environment then returns and makes the record dirty in both. *)
Theorem call_shares_registry_and_dirty_set self c st :
  ∃ env st',
    __call__ self (Some c) st = (Ok env, st') ∧
    _registry env = _registry self ∧ _dirty env = _dirty self ∧
    _context env = c ∧ _db env = _db self ∧ _uid env = _uid self ∧
    records st' = records st ∧
    (is_Some (registries st !! _registry self) →
     registries st' !! _registry self = registries st !! _registry self) ∧
    (is_Some (dirties st !! _dirty self) →
     dirties st' !! _dirty self = dirties st !! _dirty self ∧
     ∀ r record field value,
       records st' !! r = Some record →
       rec_env record = self ∨ rec_env record = env →
       ∃ st'', field_write r field value st' = (Ok tt, st'') ∧
               is_dirty self r st'' ∧ is_dirty env r st'').
Proof.
  eexists _, _. rewrite call_run. split; [done|]. simpl.
  repeat (split; [done|]). split.
  - intros Hsome. apply lookup_insert_ne. intros Heq.
    apply elem_of_dom in Hsome. rewrite <- Heq in Hsome. by apply is_fresh in Hsome.
  - intros Hsome.
    assert (fresh (dom (dirties st)) ≠ _dirty self) as Hfresh.
    { intros Heq. apply elem_of_dom in Hsome. rewrite <- Heq in Hsome.
      by apply is_fresh in Hsome. }
    split; [by apply lookup_insert_ne|].
    intros r record field value Hrec Henv. destruct Hsome as [d Hd].
    assert (_dirty (rec_env record) = _dirty self) as Hdirty.
    { by destruct Henv as [->| ->]. }
    unfold field_write. run_monad.
    rewrite Hrec. simpl. rewrite Hdirty, lookup_insert_ne, Hd by done. simpl.
    eexists. split; [done|].
    assert (∃ d', <[_dirty self := {[r]} ∪ d]>
                    (<[fresh (dom (dirties st)) := ∅]> (dirties st)) !! _dirty self = Some d' ∧
                  r ∈ d') as Hin.
    { exists ({[r]} ∪ d). rewrite lookup_insert_eq. split; [done|].
      apply elem_of_union. left. by apply elem_of_singleton. }
    split; exact Hin.
Qed.

End Registry.

(** ** Dirty records and pending values *)

Section Invariant.

Context `{!Transport, !IterOrder, !FieldStore}.

Lemma has_pending_stage record field value : has_pending (stage record field value).
Proof.
  exists field, value. by rewrite staged_values_stage, lookup_insert_eq.
Qed.

Lemma not_has_pending_committed record : ¬ has_pending (committed record).
Proof.
  intros (field & value & Hstaged). by rewrite staged_values_committed in Hstaged.
Qed.

Lemma dirty_pending_empty : dirty_pending empty_state.
Proof. intros d s r Hd. simpl in Hd. by rewrite lookup_empty in Hd. Qed.

(** A new, empty dirty set keeps the invariant. *)
Lemma dirty_pending_new_set st (f : State → State) :
  records (f st) = records st →
  dirties (f st) = <[fresh (dom (dirties st)) := ∅]> (dirties st) →
  dirty_pending st → dirty_pending (f st).
Proof.
  intros Hrecords Hdirties Hinv d s r Hd Hr. rewrite Hrecords.
  rewrite Hdirties in Hd. destruct (decide (d = fresh (dom (dirties st)))) as [->|Hne].
  - rewrite lookup_insert_eq in Hd. injection Hd as <-. by apply not_elem_of_empty in Hr.
  - rewrite lookup_insert_ne in Hd by done. by apply (Hinv d s r).
Qed.

Lemma dirty_pending_field_write r field value st o st' :
  field_write r field value st = (o, st') → dirty_pending st → dirty_pending st'.
Proof.
  intros Hrun Hinv.
  apply field_write_run in Hrun
    as [(_ & _ & ->)|(record & Hrec & Hrecords & _ & _ & _ & Hout)]; [done|].
  assert (∀ d s x, dirties st !! d = Some s → x ∈ s →
            ∃ record_x, records st' !! x = Some record_x ∧
                        _dirty (rec_env record_x) = d ∧ has_pending record_x) as Hold.
  { intros d s x Hd Hx. destruct (Hinv d s x Hd Hx) as (record_x & Hrec_x & Henv & Hpend).
    rewrite Hrecords. destruct (decide (x = r)) as [->|Hne].
    - rewrite Hrec in Hrec_x. injection Hrec_x as <-.
      exists (stage record field value). rewrite lookup_insert_eq.
      split; [done|]. split; [done|]. apply has_pending_stage.
    - exists record_x. by rewrite lookup_insert_ne. }
  destruct Hout as [(d0 & Hd0 & _ & Hdirties)|(_ & _ & Hdirties)].
  - intros d s x Hd Hx. rewrite Hdirties in Hd.
    destruct (decide (d = _dirty (rec_env record))) as [->|Hne].
    + rewrite lookup_insert_eq in Hd. injection Hd as <-.
      apply elem_of_union in Hx as [Hx|Hx].
      * apply elem_of_singleton in Hx as ->. exists (stage record field value).
        rewrite Hrecords, lookup_insert_eq. split; [done|]. split; [done|].
        apply has_pending_stage.
      * by apply (Hold _ d0).
    + rewrite lookup_insert_ne in Hd by done. by apply (Hold _ s).
  - intros d s x Hd Hx. rewrite Hdirties in Hd. by apply (Hold _ s).
Qed.

(** The records of a dirty set that [commit] left alone keep the
    invariant: they are those of the other dirty sets, and those of the
    dirty set of [self] that were not attempted. *)
Lemma dirty_pending_commit_loop self d snapshot st o st' :
  dirties st !! _dirty self = Some d →
  (∀ x, x ∈ snapshot → x ∈ d) →
  NoDup snapshot →
  commit_loop self snapshot st = (o, st') →
  dirty_pending st →
  ∃ written rest,
    snapshot = written ++ rest ∧
    (o = Ok tt ∧ rest = [] ∨ ∃ e r rest', o = Raise e ∧ rest = r :: rest') ∧
    dirties st' !! _dirty self = Some (d ∖ list_to_set written) ∧
    ∀ d' s x, dirties st' !! d' = Some s → x ∈ s → x ∉ take 1 rest →
      ∃ record, records st' !! x = Some record ∧ _dirty (rec_env record) = d' ∧
                has_pending record.
Proof.
  intros Hd Hsub Hnd Hrun Hinv.
  apply commit_loop_run in Hrun
    as (written & rest & Hsplit & Hcase & _ & _ & Hrecords & Hdirties & _); [|exact Hnd].
  exists written, rest. split; [exact Hsplit|]. split.
  { destruct Hcase as [?|(e & r & rest' & ? & ? & _)]; [by left|right].
    by exists e, r, rest'. }
  split. { by rewrite Hdirties, decide_True, Hd. }
  intros d' s x Hd' Hx Hnot. rewrite Hdirties in Hd'.
  destruct (decide (d' = _dirty self)) as [->|Hne].
  - rewrite Hd in Hd'. simpl in Hd'. injection Hd' as <-.
    apply elem_of_difference in Hx as [Hx Hw]. rewrite elem_of_list_to_set in Hw.
    destruct (Hinv _ _ _ Hd Hx) as (record & Hrec & Henv & Hpend).
    exists record. rewrite Hrecords, decide_False; [done|].
    rewrite elem_of_app. tauto.
  - destruct (Hinv _ _ _ Hd' Hx) as (record & Hrec & Henv & Hpend).
    exists record. rewrite Hrecords, decide_False; [done|].
    intros Hin.
    assert (x ∈ d) as Hxd.
    { apply Hsub. rewrite Hsplit. apply elem_of_app in Hin as [Hin|Hin].
      - apply elem_of_app. by left.
      - apply elem_of_app. right. by apply (subseteq_take 1 rest). }
    destruct (Hinv _ _ _ Hd Hxd) as (record' & Hrec' & Henv' & _).
    rewrite Hrec in Hrec'. injection Hrec' as <-. congruence.
Qed.

Lemma dirty_pending_commit_ok self st st' :
  commit self st = (Ok tt, st') → dirty_pending st → dirty_pending st'.
Proof.
  intros Hrun Hinv. destruct (dirties st !! _dirty self) as [d|] eqn:Hd.
  2:{ by rewrite (commit_stuck _ _ Hd) in Hrun. }
  rewrite (commit_eq _ _ _ Hd) in Hrun.
  eapply dirty_pending_commit_loop in Hrun
    as (written & rest & _ & Hcase & _ & Hkeep); [|exact Hd| |apply set_order_NoDup|exact Hinv].
  2:{ intros x. apply elem_of_set_order. }
  destruct Hcase as [[_ ->]|(e & r & rest' & ? & _)]; [|done].
  intros d' s x Hd' Hx. apply (Hkeep d' s x Hd' Hx). simpl. apply not_elem_of_nil.
Qed.

Lemma dirty_pending_invalidate self st o st' :
  invalidate self st = (o, st') → dirty_pending st → dirty_pending st'.
Proof.
  unfold invalidate. run_monad.
  destruct (dirties st !! _dirty self) as [d0|]; simpl; intros Hrun Hinv;
    inversion Hrun; subst; [|done].
  intros d s r Hd Hr. simpl in *.
  destruct (decide (d = _dirty self)) as [->|Hne].
  - rewrite lookup_insert_eq in Hd. injection Hd as <-. by apply not_elem_of_empty in Hr.
  - rewrite lookup_insert_ne in Hd by done. by apply (Hinv d s r).
Qed.

Lemma dirty_pending_step st st' :
  step false st st' → dirty_pending st → dirty_pending st'.
Proof.
  intros Hstep Hinv. destruct Hstep as
    [db uid context env st st' Hrun
    |self context env st st' Hrun
    |self model o st st' Hrun
    |env id cache fields r st st' Hrun
    |r field value o st st' Hrun
    |self o st st' Hrun Hok
    |self o st st' Hrun].
  - rewrite init_run in Hrun. injection Hrun as _ <-.
    by apply (dirty_pending_new_set st (λ st, set_dirties _ (set_registries _ st))).
  - rewrite call_run in Hrun. injection Hrun as _ <-.
    by apply (dirty_pending_new_set st (λ st, set_dirties _ (set_registries _ st))).
  - apply getitem_frame in Hrun as [Hdirties Hrecords].
    intros d s r. rewrite Hdirties, Hrecords. apply Hinv.
  - rewrite new_record_run in Hrun. injection Hrun as _ <-.
    intros d s x Hd Hx. simpl in *.
    destruct (Hinv d s x Hd Hx) as (record & Hrec & Henv & Hpend).
    exists record. rewrite lookup_insert_ne; [done|].
    intros Heq. assert (x ∈ dom (records st)) as Hdom by (apply elem_of_dom; eauto).
    rewrite <- Heq in Hdom. by apply is_fresh in Hdom.
  - by eapply dirty_pending_field_write.
  - destruct Hok as [?| ->]; [done|]. by eapply dirty_pending_commit_ok.
  - by eapply dirty_pending_invalidate.
Qed.

(** C5, as the code has it. In every state that is reached by creating
    environments and records, looking models up, assigning fields,
    [invalidate] and calls to [commit] that return, every record of a dirty
    set has a value pending under its own id. A call to [commit] that raises
    keeps this for every dirty record but one, the record at which the loop
    stopped; when the exception is the remote-call error, that record is
    still dirty and has no pending value left. *)
Theorem dirty_records_have_pending_values :
  (∀ st, reachable false st → dirty_pending st) ∧
  (∀ self st e st',
     dirty_pending st →
     commit self st = (Raise e, st') →
     ∃ r, ∀ d s x, dirties st' !! d = Some s → x ∈ s → x ≠ r →
            ∃ record, records st' !! x = Some record ∧ _dirty (rec_env record) = d ∧
                      has_pending record) ∧
  (∀ self st st',
     commit self st = (Raise RPCError, st') →
     ∃ r record, is_dirty self r st' ∧ records st' !! r = Some record ∧
                 ¬ has_pending record).
Proof.
  split; [|split].
  - intros st Hreach.
    eapply (rtc_ind_r (λ st, dirty_pending st)); [| |exact Hreach].
    + apply dirty_pending_empty.
    + intros st1 st2 _ Hstep IH. by apply (dirty_pending_step st1).
  - intros self st e st' Hinv Hrun.
    destruct (dirties st !! _dirty self) as [d|] eqn:Hd.
    2:{ rewrite (commit_stuck _ _ Hd) in Hrun. inversion Hrun; subst.
        exists 1%positive. intros d' s x Hd' Hx _. by apply (Hinv d' s x). }
    rewrite (commit_eq _ _ _ Hd) in Hrun.
    eapply dirty_pending_commit_loop in Hrun
      as (written & rest & _ & Hcase & _ & Hkeep);
      [|exact Hd| |apply set_order_NoDup|exact Hinv].
    2:{ intros x. apply elem_of_set_order. }
    destruct Hcase as [[? _]|(e' & r & rest' & _ & ->)]; [done|].
    exists r. intros d' s x Hd' Hx Hne. apply (Hkeep d' s x Hd' Hx).
    simpl. intros Hin. by apply list_elem_of_singleton in Hin.
  - intros self st st' Hrun.
    destruct (commit_remote_failure _ _ _ Hrun) as (r & record & _ & _ & _ & _ & Hdirty & Hrec).
    exists r, (committed record). split; [done|]. split; [done|].
    apply not_has_pending_committed.
Qed.

End Invariant.

(** ** The download of a report *)

Section ReportProperties.

Context `{!Python}.

(** [download] on a reply, step by step. *)
Lemma download_run data :
  download (Ok data) =
  match dict_get "result" data with
  | None => Raise KeyError
  | Some r =>
      rbind (py_getitem "result" r)
        (λ payload, rbind (encode2bytes payload) standard_b64decode)
  end.
Proof.
  unfold download, dict_contains, dict_getitem. simpl.
  destruct (dict_get "result" data) as [r|]; simpl; [|done].
  destruct (py_getitem "result" r) as [payload|e]; simpl; [|done].
  destruct (encode2bytes payload) as [result|e]; simpl; [|done].
  by destruct (standard_b64decode result).
Qed.

(** C9: what the code does. The test of [download] on the reply never
    raises [ValueError]: when the reply has no [result] key, evaluating the
    second operand of its [and] raises [KeyError]; when it has one, the test
    is false whatever is under the key. So [download] is the decoding of
    [data['result']['result']], or the exception that reading it raises; an
    exception of the transport is passed on. *)
Theorem download_test_never_rejects :
  (∀ data,
     download (Ok data) =
     match dict_get "result" data with
     | None => Raise KeyError
     | Some r =>
         rbind (py_getitem "result" r)
           (λ payload, rbind (encode2bytes payload) standard_b64decode)
     end) ∧
  (∀ e, download (Raise e) = Raise e).
Proof. split; [apply download_run|done]. Qed.

(** A reply without a usable [result] payload does not get the
    [ValueError] of the test: [download] raises the [KeyError] or the
    [TypeError] of reading the payload, neither of which is a [ValueError],
    or goes on to decode a false payload. *)
Lemma download_unusable_result data :
  usable_result data = false →
  (∃ e, download (Ok data) = Raise e ∧ is_ValueError e = false) ∨
  ∃ payload, truthy payload = false ∧
             download (Ok data) = rbind (encode2bytes payload) standard_b64decode.
Proof.
  intros Hunusable. rewrite download_run.
  unfold usable_result in Hunusable.
  destruct (dict_get "result" data) as [r|]; [|left; by exists KeyError].
  destruct r as [| | | | |l|items]; simpl; try (left; by exists TypeError).
  unfold dict_getitem.
  destruct (dict_get "result" items) as [payload|]; [|left; by exists KeyError].
  simpl in *. right. by exists payload.
Qed.

(** With a payload that is an ASCII string, [download] returns what the
    decoder makes of its bytes. *)
Lemma download_usable_result data items s content :
  version_major = 3%Z →
  dict_get "result" data = Some (PDict items) →
  dict_get "result" items = Some (PStr s) →
  is_ascii s = true →
  standard_b64decode (PBytes (byte_of_ascii <$> list_ascii_of_string s)) = Ok content →
  download (Ok data) = Ok content.
Proof.
  intros Hpy Hdata Hitems Hascii Hdecode.
  rewrite download_run, Hdata. simpl.
  unfold dict_getitem. rewrite Hitems. simpl. unfold encode2bytes.
  rewrite Hpy. simpl. by rewrite Hascii.
Qed.

End ReportProperties.

(** The replies [{}], [{'result': {}}] and [{'result': {'result': False}}]
    under Python 3. *)
Example download_empty_reply :
  download (H := python3) (Ok []) = Raise KeyError.
Proof. reflexivity. Qed.

Example download_empty_result :
  download (H := python3) (Ok [("result", PDict [])]) = Raise KeyError.
Proof. reflexivity. Qed.

Example download_false_result :
  download (H := python3) (Ok [("result", PDict [("result", PBool false)])]) =
  Raise TypeError.
Proof. reflexivity. Qed.

(** ** The properties on the examples *)

(** After [user.name = "Joe"] the record is dirty. *)
Lemma user_is_dirty : is_dirty odoo_env user st_joe.
Proof.
  exists {[user]}. split; [reflexivity|]. by apply elem_of_singleton.
Defined.

(** C1, as the spec has it, fails: the server refuses the write of
    [user.name = "Joe"], [commit] raises the remote-call error, and the
    cached name of the record, which was not set, is "Joe" all the same. *)
Lemma failed_write_leaves_value_stored :
  outcome commit_rejected st_joe = Raise RPCError ∧
  (records st_joe !! user ≫= λ record, _values record !! "name") = Some ∅ ∧
  (records (run commit_rejected st_joe) !! user ≫= λ record, _values record !! "name") =
    Some {[7%Z := PStr "Joe"]}.
Proof. split; [|split]; vm_compute; reflexivity. Qed.

(** The theorem of C1 on this example: the refused write of [user]. *)
Lemma store_comes_before_write_witness :
  commit_rejected st_joe = (Raise RPCError, run commit_rejected st_joe) ∧
  ∃ r record calls,
    records st_joe !! r = Some record ∧
    trace (run commit_rejected st_joe) =
      trace st_joe ++ calls ++ [Write r (rec_id record) (@staged_values record)] ∧
    @write_reply rejecting (trace st_joe ++ calls) r (rec_id record) (staged_values record) = false ∧
    is_dirty odoo_env r (run commit_rejected st_joe) ∧
    records (run commit_rejected st_joe) !! r =
      Some (@committed canonical_order plain_store record) ∧
    _values (@committed canonical_order plain_store record) =
      @stored canonical_order plain_store record ∧
    staged_values (@committed canonical_order plain_store record) = ∅.
Proof.
  assert (commit_rejected st_joe = (Raise RPCError, run commit_rejected st_joe)) as Hrun.
  { vm_compute. reflexivity. }
  split; [exact Hrun|].
  exact (proj2 (proj2 (proj2 (@store_comes_before_write rejecting canonical_order plain_store)))
           odoo_env st_joe _ Hrun).
Defined.

(** C4, as the spec has it, fails: after [user.name = "Joe"] and
    [invalidate], the value is still staged in the record; the next
    assignment makes the record dirty again and [commit] sends both
    values. *)
Lemma invalidate_keeps_staged_values :
  is_dirty odoo_env user st_joe ∧
  outcome (invalidate odoo_env) st_joe = Ok tt ∧
  (staged_values <$> records (run (invalidate odoo_env) st_joe) !! user) =
    Some {["name" := PStr "Joe"]} ∧
  trace (run (field_write user "email" (PStr "joe@odoo.net");; commit_accepted)
           (run (invalidate odoo_env) st_joe)) =
    [Write user 7 (<["name" := PStr "Joe"]> {["email" := PStr "joe@odoo.net"]})].
Proof.
  split; [exact user_is_dirty|]. split; [|split]; vm_compute; reflexivity.
Qed.

(** This state is reached by a login, a new record and an assignment. *)
Lemma st_joe_reachable (failures : bool) :
  @reachable rejecting canonical_order plain_store failures st_joe.
Proof.
  unfold reachable.
  apply (rtc_l _ _ st_login).
  { apply (step_init _ "db_name" 1 (PDict [("lang", PStr "fr_FR")]) odoo_env).
    reflexivity. }
  apply (rtc_l _ _ st_user).
  { apply (step_new_record _ odoo_env 7 no_values ["name"; "email"] user).
    reflexivity. }
  apply (rtc_l _ _ st_joe).
  { apply (step_field_write _ user "name" (PStr "Joe") (Ok tt)). reflexivity. }
  apply rtc_refl.
Defined.

(** C5, as the spec has it, fails: after [user.name = "Joe"] and a
    [commit] that the server refuses, the record is in the dirty set and has
    no value pending. *)
Lemma failed_commit_leaves_dirty_record_without_pending_value :
  @reachable rejecting canonical_order plain_store true (run commit_rejected st_joe) ∧
  is_dirty odoo_env user (run commit_rejected st_joe) ∧
  ∃ record, records (run commit_rejected st_joe) !! user = Some record ∧
            ¬ has_pending record.
Proof.
  split; [|split].
  - eapply rtc_r; [apply st_joe_reachable|].
    eapply (step_commit _ odoo_env (Raise RPCError)); [|by left].
    vm_compute. reflexivity.
  - exists {[user]}. split; [reflexivity|]. by apply elem_of_singleton.
  - eexists. split; [reflexivity|].
    intros (field & value & Hstaged). vm_compute in Hstaged. discriminate Hstaged.
Qed.

(** The theorem of C5 on the state after [user.name = "Joe"]. *)
Lemma dirty_records_have_pending_values_witness :
  @reachable rejecting canonical_order plain_store false st_joe ∧
  @dirty_pending st_joe.
Proof.
  split; [apply st_joe_reachable|].
  exact (proj1 (@dirty_records_have_pending_values rejecting canonical_order plain_store)
           st_joe (st_joe_reachable false)).
Defined.

(** The theorem of C2 on [user.name = "Joe"; user.email = "joe@odoo.net"]
    followed by [commit]: one call, with both values. *)
Lemma commit_batches_writes_witness :
  records st_user !! user ≠ None ∧
  [("name", PStr "Joe"); ("email", PStr "joe@odoo.net")] ≠ [] ∧
  field_writes user [("name", PStr "Joe"); ("email", PStr "joe@odoo.net")] st_user =
    (Ok tt, st_joe_email) ∧
  commit_accepted st_joe_email = (Ok tt, run commit_accepted st_joe_email) ∧
  ∃ calls,
    trace (run commit_accepted st_joe_email) = trace st_user ++ calls ∧
    filter (is_write_of user) calls =
      [Write user 7 (<["name" := PStr "Joe"]> {["email" := PStr "joe@odoo.net"]})] ∧
    length calls = 1.
Proof.
  assert (field_writes user [("name", PStr "Joe"); ("email", PStr "joe@odoo.net")] st_user =
            (Ok tt, st_joe_email)) as Hwrites by (vm_compute; reflexivity).
  assert (commit_accepted st_joe_email = (Ok tt, run commit_accepted st_joe_email)) as Hrun
    by (vm_compute; reflexivity).
  split; [discriminate|]. split; [discriminate|]. split; [exact Hwrites|].
  split; [exact Hrun|].
  destruct (proj1 (proj2 (@commit_batches_writes accepting canonical_order plain_store))
              user _ [("name", PStr "Joe"); ("email", PStr "joe@odoo.net")]
              st_user st_joe_email (run commit_accepted st_joe_email)
              eq_refl ltac:(discriminate) Hwrites Hrun)
    as (calls & Htrace & Hcalls & Hone).
  exists calls. split; [exact Htrace|]. split.
  - rewrite Hcalls. vm_compute. reflexivity.
  - apply Hone. reflexivity.
Defined.

(** The theorem of C3 on three dirty records and a server that accepts one
    write: [user3] is written, the write of [user2] fails, [user] is not
    attempted. *)
Lemma commit_failure_is_partial_witness :
  dirties st_three !! _dirty odoo_env = Some {[user; user2; user3]} ∧
  @set_order canonical_order {[user; user2; user3]} = [user3] ++ user2 :: [user] ∧
  @commit_loop accepting_once canonical_order plain_store odoo_env [user3] st_three =
    (Ok tt, run (@commit_loop accepting_once canonical_order plain_store odoo_env [user3]) st_three) ∧
  commit_accepted_once st_three = (Raise RPCError, run commit_accepted_once st_three) ∧
  ¬ is_dirty odoo_env user3 (run commit_accepted_once st_three) ∧
  is_dirty odoo_env user2 (run commit_accepted_once st_three) ∧
  is_dirty odoo_env user (run commit_accepted_once st_three) ∧
  records (run commit_accepted_once st_three) !! user = records st_three !! user.
Proof.
  assert (dirties st_three !! _dirty odoo_env = Some {[user; user2; user3]}) as Hd
    by (vm_compute; reflexivity).
  assert (@set_order canonical_order {[user; user2; user3]} = [user3] ++ user2 :: [user])
    as Horder by (vm_compute; reflexivity).
  assert (@commit_loop accepting_once canonical_order plain_store odoo_env [user3] st_three =
            (Ok tt, run (@commit_loop accepting_once canonical_order plain_store odoo_env [user3])
                      st_three)) as Hwritten by (vm_compute; reflexivity).
  assert (@commit_record accepting_once canonical_order plain_store odoo_env user2
            (run (@commit_loop accepting_once canonical_order plain_store odoo_env [user3]) st_three) =
            (Raise RPCError, run commit_accepted_once st_three)) as Hfail
    by (vm_compute; reflexivity).
  destruct (@commit_failure_is_partial accepting_once canonical_order plain_store
              odoo_env st_three _ [user3] user2 [user] _ _ Hd Horder Hwritten Hfail)
    as (Hrun & _ & Hdone & Hr & Hrest & _).
  split; [exact Hd|]. split; [exact Horder|]. split; [exact Hwritten|].
  split; [exact Hrun|]. split.
  { apply (Hdone user3). by apply list_elem_of_singleton. }
  split; [exact Hr|].
  apply (Hrest user). by apply list_elem_of_singleton.
Defined.

(** The theorem of C10 on the same example. *)
Lemma commit_pops_own_id_only_witness :
  commit_accepted_once st_three = (Raise RPCError, run commit_accepted_once st_three) ∧
  records st_three !! user3 ≠ None ∧
  ∃ calls,
    trace (run commit_accepted_once st_three) = trace st_three ++ calls ∧
    ∀ c, c ∈ calls →
      ∃ x record_x, records st_three !! x = Some record_x ∧
                    c = Write x (rec_id record_x) (staged_values record_x).
Proof.
  assert (commit_accepted_once st_three = (Raise RPCError, run commit_accepted_once st_three))
    as Hrun by (vm_compute; reflexivity).
  split; [exact Hrun|]. split; [discriminate|].
  exact (proj2 (@commit_pops_own_id_only accepting_once canonical_order plain_store
                  odoo_env st_three _ _ user3 _ Hrun eq_refl)).
Defined.

(** The theorem of C6 on two lookups of [res.users] after the login. *)
Lemma getitem_is_memoized_witness :
  registries st_login !! _registry odoo_env = Some ∅ ∧
  (∅ : gmap string loc) !! "res.users" = None ∧
  @__getitem__ accepting canonical_order odoo_env "res.users" st_login =
    (Ok 1%positive, run (@__getitem__ accepting canonical_order odoo_env "res.users") st_login) ∧
  @__getitem__ accepting canonical_order odoo_env "res.users"
    (run (@__getitem__ accepting canonical_order odoo_env "res.users") st_login) =
    (Ok 1%positive, run (@__getitem__ accepting canonical_order odoo_env "res.users") st_login) ∧
  trace (run (@__getitem__ accepting canonical_order odoo_env "res.users") st_login) =
    trace st_login ++ [FieldsGet "res.users"].
Proof.
  assert (@__getitem__ accepting canonical_order odoo_env "res.users" st_login =
            (Ok 1%positive,
             run (@__getitem__ accepting canonical_order odoo_env "res.users") st_login))
    as Hrun by (vm_compute; reflexivity).
  destruct (@getitem_is_memoized accepting canonical_order odoo_env "res.users"
              st_login ∅ 1%positive _ eq_refl eq_refl Hrun) as (Hagain & Htrace & _).
  split; [reflexivity|]. split; [reflexivity|]. split; [exact Hrun|].
  split; [exact Hagain|exact Htrace].
Defined.

(** The theorem of C7 on a lookup of [res.users] that the server refuses. *)
Lemma getitem_failure_caches_nothing_witness :
  registries st_login !! _registry odoo_env = Some ∅ ∧
  (∅ : gmap string loc) !! "res.users" = None ∧
  @fields_get_reply rejecting (trace st_login) "res.users" = None ∧
  ∃ st',
    @__getitem__ rejecting canonical_order odoo_env "res.users" st_login =
      (Raise RPCError, st') ∧
    trace st' = trace st_login ++ [FieldsGet "res.users"] ∧
    registries st' = registries st_login ∧ classes st' = classes st_login ∧
    (registries st' !! _registry odoo_env ≫= λ reg' : gmap string loc, reg' !! "res.users") = None.
Proof.
  split; [reflexivity|]. split; [reflexivity|]. split; [reflexivity|].
  exact (proj1 (@getitem_failure_caches_nothing rejecting canonical_order odoo_env
                  "res.users" st_login ∅ eq_refl eq_refl) eq_refl).
Defined.

(** The theorem of C4 on the state after [user.name = "Joe"]. *)
Lemma invalidate_clears_dirty_set_only_witness :
  is_Some (dirties st_joe !! _dirty odoo_env) ∧
  trace (run (invalidate odoo_env) st_joe) = trace st_joe ∧
  records (run (invalidate odoo_env) st_joe) = records st_joe ∧
  outcome (invalidate odoo_env) st_joe = Ok tt ∧
  dirties (run (invalidate odoo_env) st_joe) !! _dirty odoo_env = Some ∅ ∧
  commit_accepted (run (invalidate odoo_env) st_joe) =
    (Ok tt, run (invalidate odoo_env) st_joe).
Proof.
  assert (is_Some (dirties st_joe !! _dirty odoo_env)) as Hsome by (by eexists).
  destruct (@invalidate_clears_dirty_set_only accepting canonical_order plain_store
              odoo_env st_joe) as (Htrace & Hrecords & _ & _ & Hdirty).
  destruct (Hdirty Hsome) as (Hok & Hempty & Hcommit).
  split; [exact Hsome|]. split; [exact Htrace|]. split; [exact Hrecords|].
  split; [exact Hok|]. split; [exact Hempty|exact Hcommit].
Defined.

(** The theorem of C8 on [odoo.env({'lang': 'en_US'})] and an assignment to
    [user.name], a record of [odoo.env]. *)
Lemma call_shares_registry_and_dirty_set_witness :
  ∃ env st' st'',
    __call__ odoo_env (Some (PDict [("lang", PStr "en_US")])) st_user = (Ok env, st') ∧
    _registry env = _registry odoo_env ∧ _dirty env = _dirty odoo_env ∧
    _context env = PDict [("lang", PStr "en_US")] ∧
    field_write user "name" (PStr "Joe") st' = (Ok tt, st'') ∧
    is_dirty odoo_env user st'' ∧ is_dirty env user st''.
Proof.
  destruct (call_shares_registry_and_dirty_set odoo_env
              (PDict [("lang", PStr "en_US")]) st_user)
    as (env & st' & Hcall & Hreg & Hdirty & Hcontext & _ & _ & Hrecords & _ & Hstage).
  assert (is_Some (dirties st_user !! _dirty odoo_env)) as Hsome by (by eexists).
  destruct (Hstage Hsome) as [_ Hwrite].
  assert (records st' !! user = records st_user !! user) as Huser by (by rewrite Hrecords).
  destruct (Hwrite user _ "name" (PStr "Joe") Huser (or_introl eq_refl))
    as (st'' & Hrun & Hself & Henv).
  exists env, st', st''. split; [exact Hcall|]. split; [exact Hreg|].
  split; [exact Hdirty|]. split; [exact Hcontext|]. split; [exact Hrun|].
  split; [exact Hself|exact Henv].
Defined.

(** ** The classes that the environment generates *)

Section Columns.

Context `{!Transport, !IterOrder}.





End Columns.

Section Classes.

Context `{!Transport, !IterOrder}.


End Classes.

(** ** The class names, the registry and the environments *)

Section ClassName.

Lemma replace_char_length old new s :
  String.length (replace_char old new s) = String.length s.
Proof. induction s as [|c s IH]; simpl; [done|]. by rewrite IH. Qed.

Lemma replace_char_without old new s :
  old ≠ new → old ∉ list_ascii_of_string (replace_char old new s).
Proof.
  intros Hne. induction s as [|c s IH]; simpl.
  - apply not_elem_of_nil.
  - apply not_elem_of_cons. split; [|done].
    destruct (Ascii.eqb_spec c old) as [->|Hc]; congruence.
Qed.

Lemma replace_char_absent old new s :
  old ∉ list_ascii_of_string s → replace_char old new s = s.
Proof.
  induction s as [|c s IH]; simpl; [done|].
  intros Hin. apply not_elem_of_cons in Hin as [Hc Hin].
  rewrite IH by done. destruct (Ascii.eqb_spec c old) as [->|_]; [done|done].
Qed.

Lemma replace_char_get old new s i :
  String.get i (replace_char old new s) =
  (λ c, if Ascii.eqb c old then new else c) <$> String.get i s.
Proof.
  revert i. induction s as [|c s IH]; intros i; simpl; [done|].
  destruct i as [|i]; [done|]. apply IH.
Qed.

Context `{!Transport, !IterOrder}.

(** X3. The name of the class that [_create_model_class] returns is the
    name of the model with an underscore for every dot: it has the length of
    the model name and no dot, its characters are those of the model name
    elsewhere, and it is the model name when that has no dot. *)
Theorem class_name_has_no_dot self model st cls st1 :
  _create_model_class self model st = (Ok cls, st1) →
  ∃ c, classes st1 !! cls = Some c ∧
       String.length (cls_name c) = String.length model ∧
       ("."%char ∉ list_ascii_of_string (cls_name c)) ∧
       (∀ i, String.get i (cls_name c) =
               (λ ch, if Ascii.eqb ch "." then "_"%char else ch) <$> String.get i model) ∧
       ("."%char ∉ list_ascii_of_string model → cls_name c = model).
Proof.
  rewrite create_model_class_run.
  destruct (fields_get_reply (trace st) model) as [fields_get|]; [|by inversion 1].
  destruct (class_attrs self model fields_get) as [attrs|e]; [|by inversion 1].
  intros Hrun. injection Hrun as <- <-. eexists. simpl.
  split; [apply lookup_insert_eq|]. simpl.
  split; [apply replace_char_length|].
  split; [by apply replace_char_without|].
  split; [intros i; apply replace_char_get|].
  apply replace_char_absent.
Qed.

End ClassName.

Section Eviction.

Context `{!Transport, !IterOrder}.

Lemma registry_delitem_run self model st :
  registry_delitem self model st =
  match registries st !! _registry self with
  | None => (Raise Stuck, st)
  | Some reg =>
      match reg !! model with
      | Some _ => (Ok tt, set_registries <[_registry self := delete model reg]> st)
      | None => (Raise KeyError, st)
      end
  end.
Proof.
  unfold registry_delitem. run_monad.
  destruct (registries st !! _registry self) as [reg|]; simpl; [|done].
  by destruct (reg !! model).
Qed.

(** X4. [del env.registry[model]], for a model of the registry, removes
    this entry alone and makes no call; the next lookup of the model makes
    one [fields_get] call and, when it returns, gives a class that is not the
    one that was removed, which stays in the store as it was. For a model
    that is not in the registry it raises [KeyError] and changes nothing.
    After [env.registry.clear()] every lookup calls the server and, when it
    returns, gives a class that was not in the store. *)
Theorem registry_delitem_regenerates :
  (∀ self model st reg old,
     registries st !! _registry self = Some reg →
     reg !! model = Some old →
     is_Some (classes st !! old) →
     ∃ st1,
       registry_delitem self model st = (Ok tt, st1) ∧
       registries st1 = <[_registry self := delete model reg]> (registries st) ∧
       classes st1 = classes st ∧ records st1 = records st ∧
       dirties st1 = dirties st ∧ trace st1 = trace st ∧
       ∀ o st2,
         __getitem__ self model st1 = (o, st2) →
         trace st2 = trace st ++ [FieldsGet model] ∧
         classes st2 !! old = classes st !! old ∧
         ∀ cls, o = Ok cls →
           cls ≠ old ∧ is_Some (classes st2 !! cls) ∧
           registries st2 = <[_registry self := <[model := cls]> reg]> (registries st)) ∧
  (∀ self model st reg,
     registries st !! _registry self = Some reg →
     reg !! model = None →
     registry_delitem self model st = (Raise KeyError, st)) ∧
  (∀ self st reg,
     registries st !! _registry self = Some reg →
     ∃ st1,
       registry_clear self st = (Ok tt, st1) ∧
       registries st1 = <[_registry self := ∅]> (registries st) ∧
       classes st1 = classes st ∧ trace st1 = trace st ∧
       ∀ model o st2,
         __getitem__ self model st1 = (o, st2) →
         trace st2 = trace st ++ [FieldsGet model] ∧
         ∀ cls, o = Ok cls → classes st !! cls = None).
Proof.
  split; [|split].
  - intros self model st reg old Hreg Hold Hcls.
    rewrite registry_delitem_run, Hreg, Hold. eexists. split; [done|]. simpl.
    do 5 (split; [done|]).
    intros o st2. rewrite getitem_run. simpl. rewrite lookup_insert_eq.
    rewrite lookup_delete_eq, create_model_class_run. simpl.
    destruct (fields_get_reply (trace st) model) as [fields_get|].
    2:{ inversion 1. simpl. do 2 (split; [done|]). by intros cls. }
    destruct (class_attrs self model fields_get) as [attrs|e].
    2:{ inversion 1. simpl. do 2 (split; [done|]). by intros cls. }
    inversion 1. simpl. split; [done|].
    assert (fresh (dom (classes st)) ≠ old) as Hfresh.
    { intros Heq. apply elem_of_dom in Hcls. rewrite <- Heq in Hcls.
      by apply is_fresh in Hcls. }
    split; [by apply lookup_insert_ne|].
    intros cls Hcls'. injection Hcls' as <-. split; [done|].
    split; [by rewrite lookup_insert_eq|].
    by rewrite insert_insert_eq, insert_delete_eq.
  - intros self model st reg Hreg Hnone.
    by rewrite registry_delitem_run, Hreg, Hnone.
  - intros self st reg Hreg. unfold registry_clear. run_monad. rewrite Hreg. simpl.
    eexists. split; [done|]. simpl. do 3 (split; [done|]).
    intros model o st2. rewrite getitem_run. simpl. rewrite lookup_insert_eq.
    rewrite lookup_empty, create_model_class_run. simpl.
    destruct (fields_get_reply (trace st) model) as [fields_get|].
    2:{ inversion 1. split; [done|]. by intros cls. }
    destruct (class_attrs self model fields_get) as [attrs|e].
    2:{ inversion 1. split; [done|]. by intros cls. }
    inversion 1. split; [done|]. intros cls Hcls. injection Hcls as <-.
    apply not_elem_of_dom, is_fresh.
Qed.


(** X6. [Environment.__init__] makes an environment with a registry and a
    dirty set that are new and empty, and leaves every other object as it
    was: the registry and the dirty set of an existing environment are other
    objects, every model that is looked up through the new environment is
    asked from the server and gets a class that was not in the store, and an
    assignment to a field of an existing record makes the record dirty in
    its own environment and not in the new one. *)
Theorem init_makes_independent_environment db uid context st :
  ∃ env st',
    __init__ db uid context st = (Ok env, st') ∧
    _db env = db ∧ _uid env = uid ∧ _context env = context ∧
    registries st !! _registry env = None ∧ dirties st !! _dirty env = None ∧
    registries st' = <[_registry env := ∅]> (registries st) ∧
    dirties st' = <[_dirty env := ∅]> (dirties st) ∧
    classes st' = classes st ∧ records st' = records st ∧ trace st' = trace st ∧
    (∀ other,
       is_Some (registries st !! _registry other) →
       _registry env ≠ _registry other ∧
       registries st' !! _registry other = registries st !! _registry other) ∧
    (∀ other,
       is_Some (dirties st !! _dirty other) →
       _dirty env ≠ _dirty other ∧
       dirties st' !! _dirty other = dirties st !! _dirty other) ∧
    (∀ model o st'',
       __getitem__ env model st' = (o, st'') →
       trace st'' = trace st ++ [FieldsGet model] ∧
       ∀ cls, o = Ok cls → classes st !! cls = None) ∧
    (∀ r record field value o st'',
       records st !! r = Some record →
       is_Some (dirties st !! _dirty (rec_env record)) →
       field_write r field value st' = (o, st'') →
       o = Ok tt ∧ is_dirty (rec_env record) r st'' ∧ ¬ is_dirty env r st'').
Proof.
  rewrite init_run. eexists _, _. split; [done|]. simpl.
  do 3 (split; [done|]).
  split; [apply not_elem_of_dom, is_fresh|].
  split; [apply not_elem_of_dom, is_fresh|].
  do 5 (split; [done|]).
  assert (∀ {A} (m : gmap loc A) l, is_Some (m !! l) → fresh (dom m) ≠ l) as Hfresh.
  { intros A m l Hsome Heq. apply elem_of_dom in Hsome. rewrite <- Heq in Hsome.
    by apply is_fresh in Hsome. }
  split.
  { intros other Hsome. split; [by apply Hfresh|]. apply lookup_insert_ne. by apply Hfresh. }
  split.
  { intros other Hsome. split; [by apply Hfresh|]. apply lookup_insert_ne. by apply Hfresh. }
  split.
  - intros model o st''. rewrite getitem_run. simpl. rewrite lookup_insert_eq.
    rewrite lookup_empty, create_model_class_run. simpl.
    destruct (fields_get_reply (trace st) model) as [fields_get|].
    2:{ inversion 1. split; [done|]. by intros cls. }
    destruct (class_attrs _ model fields_get) as [attrs|e].
    2:{ inversion 1. split; [done|]. by intros cls. }
    inversion 1. split; [done|]. intros cls Hcls. injection Hcls as <-.
    apply not_elem_of_dom, is_fresh.
  - intros r record field value o st'' Hrec [d Hd] Hwrite.
    assert (fresh (dom (dirties st)) ≠ _dirty (rec_env record)) as Hne.
    { apply Hfresh. by eexists. }
    unfold field_write in Hwrite. run_monad in Hwrite.
    rewrite Hrec in Hwrite. simpl in Hwrite.
    rewrite lookup_insert_ne, Hd in Hwrite by done. simpl in Hwrite.
    injection Hwrite as <- <-. split; [done|]. split.
    + exists ({[r]} ∪ d). simpl. rewrite lookup_insert_eq. split; [done|].
      apply elem_of_union. left. by apply elem_of_singleton.
    + intros (d' & Hd' & Hin). simpl in Hd'.
      rewrite lookup_insert_ne, lookup_insert_eq in Hd' by done.
      injection Hd' as <-. by apply elem_of_empty in Hin.
Qed.

End Eviction.

Section CommitAgain.

Context `{!Transport, !IterOrder, !FieldStore}.

Lemma set_order_empty : set_order ∅ = [].
Proof.
  apply Permutation_nil_r. rewrite set_order_perm. by rewrite elements_empty.
Qed.

Lemma commit_nothing self st :
  dirties st !! _dirty self = Some ∅ → commit self st = (Ok tt, st).
Proof. intros Hd. rewrite (commit_eq self st ∅ Hd), set_order_empty. done. Qed.

(** X7. [commit] is idempotent: after a [commit] that returns, a second
    [commit] returns as well, makes no call and changes nothing, and no
    record is dirty. *)
Theorem commit_is_idempotent self st st' :
  commit self st = (Ok tt, st') →
  commit self st' = (Ok tt, st') ∧
  ∀ r, ¬ is_dirty self r st'.
Proof.
  intros Hcommit.
  destruct (dirties st !! _dirty self) as [d|] eqn:Hd.
  2:{ by rewrite commit_stuck in Hcommit. }
  destruct (commit_ok self st st' d Hd Hcommit) as (_ & _ & _ & Hdirties & _).
  split.
  - apply commit_nothing. rewrite Hdirties. apply lookup_insert_eq.
  - intros r (d' & Hd' & Hin). rewrite Hdirties, lookup_insert_eq in Hd'.
    injection Hd' as <-. by apply elem_of_empty in Hin.
Qed.





(** X9. After a [commit] that fails on a write call, a second [commit]
    that returns writes the record of the failed call again, with no value:
    the values that were staged for this record have left
    [_values_to_write] with the first call, and no later call sends them. *)
Theorem commit_retry_writes_no_values self st st1 st2 :
  commit self st = (Raise RPCError, st1) →
  commit self st1 = (Ok tt, st2) →
  ∃ r record calls1 calls2,
    records st !! r = Some record ∧
    trace st1 = trace st ++ calls1 ++ [Write r (rec_id record) (staged_values record)] ∧
    write_reply (trace st ++ calls1) r (rec_id record) (staged_values record) = false ∧
    trace st2 = trace st1 ++ calls2 ∧
    filter (is_write_of r) calls2 = [Write r (rec_id record) ∅] ∧
    ¬ is_dirty self r st2.
Proof.
  intros Hfail Hretry.
  destruct (commit_remote_failure self st st1 Hfail)
    as (r & record & calls1 & Hrec & Htrace & Hreply & (d1 & Hd1 & Hin) & Hrec1).
  destruct (commit_ok self st1 st2 d1 Hd1 Hretry) as (Htrace2 & _ & _ & Hdirties & _).
  exists r, record, calls1, (omap (write_call st1) (set_order d1)).
  do 4 (split; [done|]). split.
  - rewrite filter_write_calls by apply set_order_NoDup.
    rewrite decide_True by by apply elem_of_set_order.
    unfold write_call. rewrite Hrec1. simpl. by rewrite staged_values_committed.
  - intros (d' & Hd' & Hin'). rewrite Hdirties, lookup_insert_eq in Hd'.
    injection Hd' as <-. by apply elem_of_empty in Hin'.
Qed.

End CommitAgain.

(** ** The encoding of the payload and the listing of the reports *)

Section EncodeProperties.

Context `{!Python}.

Lemma ascii_of_byte_of_ascii_list (l : list ascii) :
  ascii_of_byte <$> (byte_of_ascii <$> l) = l.
Proof.
  induction l as [|c l IH]; [done|].
  rewrite !fmap_cons, ascii_of_byte_of_ascii. by f_equal.
Qed.

(** X10. [encode2bytes] is the identity under Python 2. Under Python 3 it
    maps an ASCII string to a byte string of the same length, from which the
    string is read back; it raises [UnicodeEncodeError] on a string that is
    not ASCII and [TypeError] on a value that is not a string, and returns
    in no other case. *)
Theorem encode2bytes_is_ascii_encoding :
  ((version_major < 3)%Z → ∀ data, encode2bytes data = Ok data) ∧
  ((3 ≤ version_major)%Z →
   (∀ s, is_ascii s = true →
      ∃ b, encode2bytes (PStr s) = Ok (PBytes b) ∧
           length b = String.length s ∧
           string_of_list_ascii (ascii_of_byte <$> b) = s) ∧
   (∀ s, is_ascii s = false → encode2bytes (PStr s) = Raise UnicodeEncodeError) ∧
   (∀ data, (∀ s, data ≠ PStr s) → encode2bytes data = Raise TypeError) ∧
   (∀ data v, encode2bytes data = Ok v →
      ∃ s b, data = PStr s ∧ v = PBytes b ∧ is_ascii s = true)).
Proof.
  split.
  - intros Hpy data. unfold encode2bytes.
    by rewrite (proj2 (Z.ltb_lt _ _) Hpy).
  - intros Hpy.
    assert ((version_major <? 3)%Z = false) as Hv by by apply Z.ltb_ge.
    split; [|split; [|split]].
    + intros s Hs. unfold encode2bytes. rewrite Hv, Hs. eexists. split; [done|]. split.
      * rewrite length_fmap. clear Hs. induction s as [|c s IH]; simpl; [done|]. by rewrite IH.
      * by rewrite ascii_of_byte_of_ascii_list, string_of_list_ascii_of_string.
    + intros s Hs. unfold encode2bytes. by rewrite Hv, Hs.
    + intros data Hdata. unfold encode2bytes. rewrite Hv.
      destruct data as [| | |s| | |]; try done. by destruct (Hdata s).
    + intros data v. unfold encode2bytes. rewrite Hv.
      destruct data as [| | |s| | |]; try done.
      destruct (is_ascii s) eqn:Hs; [|done]. intros Heq. injection Heq as <-.
      by eexists _, _.
Qed.

End EncodeProperties.

Section ListProperties.

Context `{!Transport, !IterOrder, !Python}.

Lemma dict_get_filter key key' (items : list (string * pyval)) :
  dict_get key (filter (λ item, item.1 ≠ key') items) =
  if decide (key = key') then None else dict_get key items.
Proof.
  induction items as [|[k v] items IH]; simpl.
  - by case_decide.
  - rewrite filter_cons. simpl. destruct (decide (k ≠ key')) as [Hk|Hk].
    + simpl. rewrite IH. destruct (String.eqb_spec k key) as [->|Hne]; [|done].
      by case_decide.
    + apply dec_stable in Hk. subst k. rewrite IH.
      destruct (String.eqb_spec key' key) as [->|Hne]; [|done].
      by case_decide.
Qed.

Lemma dict_pop_run key items v :
  dict_get key items = Some v →
  dict_pop key items = Ok (v, filter (λ item, item.1 ≠ key) items).
Proof. intros Hget. unfold dict_pop. by rewrite Hget. Qed.

Lemma groups_get_snoc s t l groups :
  groups_get (PStr t) (groups ++ [(PStr s, l)]) =
  match groups_get (PStr t) groups with
  | Some l' => Some l'
  | None => if decide (t = s) then Some l else None
  end.
Proof.
  induction groups as [|[k l'] groups IH]; simpl.
  - destruct (String.eqb_spec s t) as [->|Hne].
    + by rewrite decide_True.
    + by rewrite decide_False.
  - by destruct (key_eqb k (PStr t)).
Qed.

Lemma groups_get_append s t report groups :
  string_keys groups →
  groups_get (PStr t) (groups_append (PStr s) report groups) =
  if decide (t = s) then (λ l, l ++ [report]) <$> groups_get (PStr s) groups
  else groups_get (PStr t) groups.
Proof.
  intros Hkeys. induction groups as [|[k l] groups IH]; simpl.
  - by case_decide.
  - destruct (Hkeys k l) as [u ->]; [apply list_elem_of_here|]. simpl.
    assert (string_keys groups) as Hrest.
    { intros k' l' Hin. apply (Hkeys k' l'). by apply list_elem_of_further. }
    destruct (String.eqb_spec u s) as [->|Hus]; simpl.
    + destruct (String.eqb_spec s t) as [->|Hst].
      * by rewrite decide_True.
      * by rewrite decide_False.
    + destruct (String.eqb_spec u t) as [->|Hut].
      * by rewrite decide_False.
      * by apply IH.
Qed.

Lemma string_keys_append s report groups :
  string_keys groups → string_keys (groups_append (PStr s) report groups).
Proof.
  intros Hkeys. induction groups as [|[k l] groups IH]; simpl; [done|].
  assert (string_keys groups) as Hrest.
  { intros k' l' Hin. apply (Hkeys k' l'). by apply list_elem_of_further. }
  destruct (Hkeys k l) as [u ->]; [apply list_elem_of_here|]. simpl.
  destruct (String.eqb u s).
  - intros k' l' Hin. apply elem_of_cons in Hin as [Heq|Hin].
    + injection Heq as -> _. by eexists.
    + by apply (Hrest k' l').
  - intros k' l' Hin. apply elem_of_cons in Hin as [Heq|Hin].
    + injection Heq as -> _. by eexists.
    + by apply (IH Hrest k' l').
Qed.

(** One turn of the loop, on a report of the model [s]. *)
Lemma list_turn_run report s groups :
  dict_get "model" report = Some (PStr s) →
  is_Some (dict_get "id" report) →
  string_keys groups →
  ∃ groups',
    list_turn report groups = Ok groups' ∧
    string_keys groups' ∧
    ∀ t, groups_get (PStr t) groups' =
           if decide (t = s)
           then Some (default [] (groups_get (PStr s) groups) ++ [listed report])
           else groups_get (PStr t) groups.
Proof.
  intros Hmodel [id Hid] Hkeys. unfold list_turn.
  rewrite (dict_pop_run _ _ _ Hmodel). simpl.
  rewrite (dict_pop_run "id" _ id).
  2:{ by rewrite dict_get_filter. }
  simpl. fold (listed report). eexists. split; [done|].
  destruct (groups_get (PStr s) groups) as [l|] eqn:Hget.
  - split; [by apply string_keys_append|].
    intros t. rewrite groups_get_append, Hget by done. done.
  - assert (string_keys (groups ++ [(PStr s, [])])) as Hkeys'.
    { intros k l Hin. apply elem_of_app in Hin as [Hin|Hin]; [by apply (Hkeys k l)|].
      apply list_elem_of_singleton in Hin. injection Hin as -> _. by eexists. }
    split; [by apply string_keys_append|].
    intros t. rewrite groups_get_append by done.
    rewrite !groups_get_snoc, Hget. rewrite (decide_True (P := s = s)) by done. simpl.
    destruct (decide (t = s)) as [Hts|Hts]; [done|].
    by destruct (groups_get (PStr t) groups).
Qed.

Lemma list_loop_run reports groups :
  Forall has_model_and_id reports →
  string_keys groups →
  ∃ groups',
    list_loop reports groups = Ok groups' ∧
    string_keys groups' ∧
    ∀ s, groups_get (PStr s) groups' =
           match groups_get (PStr s) groups, reports_of s reports with
           | Some l, l' => Some (l ++ l')
           | None, [] => None
           | None, l' => Some l'
           end.
Proof.
  intros Hreports. revert groups.
  induction Hreports as [|report reports [[s Hmodel] Hid] _ IH]; intros groups Hkeys.
  { exists groups. split; [done|]. split; [done|]. intros s. simpl.
    destruct (groups_get (PStr s) groups); [by rewrite app_nil_r|done]. }
  destruct (list_turn_run report s groups Hmodel Hid Hkeys) as (groups1 & Hturn & Hkeys1 & Hget1).
  destruct (IH groups1 Hkeys1) as (groups' & Hloop & Hkeys' & Hget').
  exists groups'. cbn [list_loop]. rewrite Hturn. simpl. split; [done|]. split; [done|].
  intros t. rewrite Hget', Hget1. unfold reports_of. cbn [omap list_omap]. rewrite Hmodel.
  fold (reports_of t reports).
  destruct (String.eqb_spec s t) as [->|Hst].
  - rewrite decide_True by done.
    destruct (groups_get (PStr t) groups) as [l|]; simpl.
    + by rewrite <- app_assoc.
    + done.
  - rewrite decide_False by done. done.
Qed.

Lemma list_reports_run env search_read st :
  list_reports env search_read st =
  match __getitem__ env "ir.actions.report.xml" st with
  | (Ok Report, st1) =>
      match search_read Report st1 with
      | (Ok reports, st2) => (list_loop reports [], st2)
      | (Raise e, st2) => (Raise e, st2)
      end
  | (Raise e, st1) => (Raise e, st1)
  end.
Proof.
  unfold list_reports, bind, lift.
  destruct (__getitem__ env "ir.actions.report.xml" st) as [[Report|e] st1]; [|done].
  by destruct (search_read Report st1) as [[reports|e] st2].
Qed.

Lemma dict_get_listed key report :
  dict_get key (listed report) =
  if decide (key = "id") then None
  else if decide (key = "model") then None else dict_get key report.
Proof. unfold listed. rewrite !dict_get_filter. by case_decide. Qed.

(** X11. [Report.list], when the lookup of [ir.actions.report.xml] and
    the reading of the reports return, and each report has an [id] and a
    model that is a string, returns a dict whose keys are strings and which
    holds, under each model, the reports of that model in the order in which
    they were read, each without its [model] and [id] and with its other
    keys as they were; a model without a report is no key. *)
Theorem list_groups_reports_by_model env search_read st Report st1 reports st2 :
  __getitem__ env "ir.actions.report.xml" st = (Ok Report, st1) →
  search_read Report st1 = (Ok reports, st2) →
  Forall has_model_and_id reports →
  ∃ groups,
    list_reports env search_read st = (Ok groups, st2) ∧
    (∀ k l, (k, l) ∈ groups → ∃ s, k = PStr s) ∧
    (∀ s, groups_get (PStr s) groups =
            match reports_of s reports with
            | [] => None
            | l => Some l
            end) ∧
    (∀ s l report, groups_get (PStr s) groups = Some l → report ∈ l →
       dict_get "model" report = None ∧ dict_get "id" report = None ∧
       ∃ report', report' ∈ reports ∧
                  dict_get "model" report' = Some (PStr s) ∧
                  ∀ key, key ≠ "model" → key ≠ "id" →
                    dict_get key report = dict_get key report').
Proof.
  intros Hget Hread Hreports.
  destruct (list_loop_run reports [] Hreports) as (groups & Hloop & Hkeys & Hgroups).
  { intros k l Hin. by apply elem_of_nil in Hin. }
  exists groups. rewrite list_reports_run, Hget, Hread, Hloop.
  split; [done|]. split; [done|]. split; [done|].
  intros s l report Hl Hin. rewrite Hgroups in Hl. simpl in Hl.
  assert (report ∈ reports_of s reports) as Hin'.
  { destruct (reports_of s reports); [done|]. by injection Hl as <-. }
  unfold reports_of in Hin'. apply list_elem_of_omap in Hin' as (report' & Hrep & Heq).
  destruct (dict_get "model" report') as [[| | |u| | |]|] eqn:Hmodel; try done.
  destruct (String.eqb_spec u s) as [->|]; [|done]. injection Heq as <-.
  rewrite !dict_get_listed. simpl. do 2 (split; [done|]).
  exists report'. do 2 (split; [done|]). intros key Hk1 Hk2.
  rewrite dict_get_listed. by rewrite !decide_False.
Qed.

Lemma list_turn_key_error report groups :
  (∀ v, dict_get "model" report = Some v → hashable v = true) →
  (∃ groups', list_turn report groups = Ok groups') ∨
  list_turn report groups = Raise KeyError.
Proof.
  intros Hhash. unfold list_turn, dict_pop.
  destruct (dict_get "model" report) as [model|]; [|by right]. simpl.
  destruct (dict_get "id" _); [|by right]. simpl.
  rewrite Hhash by done. left. by eexists.
Qed.

Lemma list_turn_missing report groups :
  dict_get "model" report = None ∨ dict_get "id" report = None →
  list_turn report groups = Raise KeyError.
Proof.
  intros Hmiss. unfold list_turn, dict_pop.
  destruct (dict_get "model" report) as [model|] eqn:Hmodel; [|done]. simpl.
  destruct Hmiss as [?|Hid]; [done|].
  rewrite dict_get_filter, Hid. done.
Qed.

Lemma list_loop_key_error reports groups :
  (∀ report v, report ∈ reports → dict_get "model" report = Some v →
     hashable v = true) →
  (∃ report, report ∈ reports ∧
             (dict_get "model" report = None ∨ dict_get "id" report = None)) →
  list_loop reports groups = Raise KeyError.
Proof.
  intros Hhash (report & Hin & Hmiss). revert groups.
  induction reports as [|r reports IH]; intros groups; [by apply elem_of_nil in Hin|].
  cbn [list_loop]. apply elem_of_cons in Hin as [<-|Hin].
  - by rewrite list_turn_missing.
  - destruct (list_turn_key_error r groups) as [[groups' ->]| ->]; [| |done].
    + intros v. apply Hhash, list_elem_of_here.
    + simpl. apply IH; [|done]. intros report' v Hin'. apply Hhash.
      by apply list_elem_of_further.
Qed.

(** X12. [Report.list] passes on the exception of the lookup of
    [ir.actions.report.xml], without reading any report, and the exception
    of the reading of the reports. When a report has no [model] or no [id],
    it raises [KeyError] (the models being hashable). *)
Theorem list_raises_key_error :
  (∀ env search_read st e st1,
     __getitem__ env "ir.actions.report.xml" st = (Raise e, st1) →
     list_reports env search_read st = (Raise e, st1)) ∧
  (∀ env search_read st Report st1 e st2,
     __getitem__ env "ir.actions.report.xml" st = (Ok Report, st1) →
     search_read Report st1 = (Raise e, st2) →
     list_reports env search_read st = (Raise e, st2)) ∧
  (∀ env search_read st Report st1 reports st2,
     __getitem__ env "ir.actions.report.xml" st = (Ok Report, st1) →
     search_read Report st1 = (Ok reports, st2) →
     (∀ report v, report ∈ reports → dict_get "model" report = Some v →
        hashable v = true) →
     (∃ report, report ∈ reports ∧
                (dict_get "model" report = None ∨ dict_get "id" report = None)) →
     list_reports env search_read st = (Raise KeyError, st2)).
Proof.
  split; [|split].
  - intros env search_read st e st1 Hget. by rewrite list_reports_run, Hget.
  - intros env search_read st Report st1 e st2 Hget Hread.
    by rewrite list_reports_run, Hget, Hread.
  - intros env search_read st Report st1 reports st2 Hget Hread Hhash Hmiss.
    rewrite list_reports_run, Hget, Hread. f_equal. by apply list_loop_key_error.
Qed.

End ListProperties.

(** ** The soundness of the registry *)

Section RegistryInvariant.

Context `{!Transport, !IterOrder, !FieldStore}.

Lemma class_attrs_name self model fields_get attrs :
  class_attrs self model fields_get = Ok attrs →
  ∃ columns, attrs !! "_columns" = Some (AColumns columns) ∧ is_Some (columns !! "name").
Proof.
  unfold class_attrs. destruct (add_fields _ _) as [attrs0|e]; simpl; [|done].
  unfold add_name_field, attrs_columns.
  destruct (attrs0 !! "_columns") as [[| | |columns|]|] eqn:Hcolumns; simpl; try done.
  case_bool_decide as Hname.
  - intros Heq. injection Heq as <-. exists columns. split; [done|].
    by apply elem_of_dom.
  - unfold add_field, attrs_columns. rewrite Hcolumns. simpl.
    intros Heq. injection Heq as <-. eexists. split.
    + rewrite lookup_insert_ne by done. apply lookup_insert_eq.
    + rewrite lookup_insert_eq. by eexists.
Qed.

Lemma registry_sound_empty : registry_sound empty_state.
Proof.
  split.
  - intros l reg model cls Hreg. simpl in Hreg. by rewrite lookup_empty in Hreg.
  - intros l1 reg1 model1 l2 reg2 model2 cls Hreg. simpl in Hreg.
    by rewrite lookup_empty in Hreg.
Qed.

(** The states with the same registries and classes. *)
Lemma registry_sound_frame st st' :
  registries st' = registries st → classes st' = classes st →
  registry_sound st → registry_sound st'.
Proof. unfold registry_sound. by intros -> ->. Qed.

(** A new, empty registry. *)
Lemma registry_sound_new_registry st st' l :
  registries st' = <[l := ∅]> (registries st) → classes st' = classes st →
  registries st !! l = None →
  registry_sound st → registry_sound st'.
Proof.
  intros Hregs Hcls Hfresh [Hwf Hinj].
  assert (∀ l0 reg model cls,
            <[l := ∅]> (registries st) !! l0 = Some reg → reg !! model = Some cls →
            registries st !! l0 = Some reg) as Hold.
  { intros l0 reg model cls Hreg Hmodel. destruct (decide (l0 = l)) as [->|Hne].
    - rewrite lookup_insert_eq in Hreg. injection Hreg as <-.
      by rewrite lookup_empty in Hmodel.
    - by rewrite lookup_insert_ne in Hreg. }
  unfold registry_sound. rewrite Hregs, Hcls. split.
  - intros l0 reg model cls Hreg Hmodel. by eapply Hwf; [eapply Hold|].
  - intros l1 reg1 model1 l2 reg2 model2 cls Hreg1 Hmodel1 Hreg2 Hmodel2.
    by eapply Hinj; [eapply Hold| |eapply Hold|].
Qed.

(** A registry that loses entries. *)
Lemma registry_sound_shrink st st' l reg reg' :
  registries st !! l = Some reg →
  reg' ⊆ reg →
  registries st' = <[l := reg']> (registries st) → classes st' = classes st →
  registry_sound st → registry_sound st'.
Proof.
  intros Hl Hsub Hregs Hcls [Hwf Hinj].
  assert (∀ l0 reg0 model cls,
            <[l := reg']> (registries st) !! l0 = Some reg0 → reg0 !! model = Some cls →
            ∃ reg1, registries st !! l0 = Some reg1 ∧ reg1 !! model = Some cls) as Hold.
  { intros l0 reg0 model cls Hreg Hmodel. destruct (decide (l0 = l)) as [->|Hne].
    - rewrite lookup_insert_eq in Hreg. injection Hreg as <-.
      exists reg. split; [done|]. by eapply lookup_weaken.
    - rewrite lookup_insert_ne in Hreg by done. by exists reg0. }
  unfold registry_sound. rewrite Hregs, Hcls. split.
  - intros l0 reg0 model cls Hreg Hmodel.
    destruct (Hold _ _ _ _ Hreg Hmodel) as (reg1 & Hreg1 & Hmodel1). by eapply Hwf.
  - intros l1 reg1 model1 l2 reg2 model2 cls Hreg1 Hmodel1 Hreg2 Hmodel2.
    destruct (Hold _ _ _ _ Hreg1 Hmodel1) as (reg1' & Hreg1' & Hmodel1').
    destruct (Hold _ _ _ _ Hreg2 Hmodel2) as (reg2' & Hreg2' & Hmodel2').
    by eapply Hinj.
Qed.

Lemma registry_sound_getitem self model o st st' :
  __getitem__ self model st = (o, st') → registry_sound st → registry_sound st'.
Proof.
  rewrite getitem_run.
  destruct (registries st !! _registry self) as [reg|] eqn:Hreg; [|by inversion 1].
  destruct (reg !! model) as [cls|] eqn:Hmodel; [by inversion 1|].
  rewrite create_model_class_run.
  destruct (fields_get_reply (trace st) model) as [fields_get|].
  2:{ inversion 1. by apply registry_sound_frame. }
  destruct (class_attrs self model fields_get) as [attrs|e] eqn:Hattrs.
  2:{ inversion 1. by apply registry_sound_frame. }
  intros Hrun [Hwf Hinj]. injection Hrun as _ <-.
  destruct (class_attrs_name _ _ _ _ Hattrs) as (columns & Hcolumns & Hname).
  set (cls := fresh (dom (classes st))).
  assert (classes st !! cls = None) as Hfresh by apply not_elem_of_dom, is_fresh.
  assert (∀ l0 reg0 model0 cls0,
            registries st !! l0 = Some reg0 → reg0 !! model0 = Some cls0 → cls0 ≠ cls) as Hne.
  { intros l0 reg0 model0 cls0 Hreg0 Hmodel0 ->.
    destruct (Hwf _ _ _ _ Hreg0 Hmodel0) as (c & _ & Hc & _). by rewrite Hfresh in Hc. }
  assert (∀ l0 reg0 model0 cls0,
            <[_registry self := <[model := cls]> reg]> (registries st) !! l0 = Some reg0 →
            reg0 !! model0 = Some cls0 →
            (l0 = _registry self ∧ model0 = model ∧ cls0 = cls) ∨
            (cls0 ≠ cls ∧ ∃ reg1, registries st !! l0 = Some reg1 ∧
                                  reg1 !! model0 = Some cls0)) as Hcases.
  { intros l0 reg0 model0 cls0 Hreg0 Hmodel0.
    destruct (decide (l0 = _registry self)) as [->|Hl].
    - rewrite lookup_insert_eq in Hreg0. injection Hreg0 as <-.
      destruct (decide (model0 = model)) as [->|Hm].
      + rewrite lookup_insert_eq in Hmodel0. injection Hmodel0 as <-. by left.
      + rewrite lookup_insert_ne in Hmodel0 by done. right.
        split; [by eapply Hne|]. by exists reg.
    - rewrite lookup_insert_ne in Hreg0 by done. right.
      split; [by eapply Hne|]. by exists reg0. }
  split; simpl.
  - intros l0 reg0 model0 cls0 Hreg0 Hmodel0.
    destruct (Hcases _ _ _ _ Hreg0 Hmodel0) as [(-> & -> & ->)|(Hcls0 & reg1 & Hreg1 & Hmodel1)].
    + eexists _, columns. rewrite lookup_insert_eq. by split.
    + rewrite lookup_insert_ne by done. by eapply Hwf.
  - intros l1 reg1 model1 l2 reg2 model2 cls0 Hreg1 Hmodel1 Hreg2 Hmodel2.
    destruct (Hcases _ _ _ _ Hreg1 Hmodel1) as [(-> & -> & ->)|(Hcls1 & reg1' & Hreg1' & Hmodel1')];
      destruct (Hcases _ _ _ _ Hreg2 Hmodel2) as [(-> & -> & Heq)|(Hcls2 & reg2' & Hreg2' & Hmodel2')];
      try done.
    by eapply Hinj.
Qed.

Lemma registry_sound_step failures st st' :
  step failures st st' → registry_sound st → registry_sound st'.
Proof.
  intros Hstep Hinv. destruct Hstep as
    [db uid context env st st' Hrun
    |self context env st st' Hrun
    |self model o st st' Hrun
    |env id cache fields r st st' Hrun
    |r field value o st st' Hrun
    |self o st st' Hrun Hok
    |self o st st' Hrun].
  - rewrite init_run in Hrun. injection Hrun as _ <-.
    eapply (registry_sound_new_registry st); [done|done| |done].
    apply not_elem_of_dom, is_fresh.
  - rewrite call_run in Hrun. injection Hrun as _ <-.
    eapply (registry_sound_new_registry st); [done|done| |done].
    apply not_elem_of_dom, is_fresh.
  - by eapply registry_sound_getitem.
  - rewrite new_record_run in Hrun. injection Hrun as _ <-.
    by apply (registry_sound_frame st).
  - apply field_write_run in Hrun as [(_ & _ & ->)|(record & _ & _ & _ & Hregs & Hcls & _)];
      [done|]. by apply (registry_sound_frame st).
  - destruct (dirties st !! _dirty self) as [d|] eqn:Hd.
    + rewrite (commit_eq self st d Hd) in Hrun.
      apply commit_loop_run in Hrun as (_ & _ & _ & _ & _ & _ & _ & _ & Hregs & Hcls);
        [|apply set_order_NoDup].
      by apply (registry_sound_frame st).
    + rewrite commit_stuck in Hrun by done. by injection Hrun as _ <-.
  - unfold invalidate in Hrun. run_monad in Hrun.
    destruct (dirties st !! _dirty self); simpl in Hrun; injection Hrun as _ <-; [|done].
    by apply (registry_sound_frame st).
Qed.

(** X13. In every state that is reached by the operations of the
    environment, whether the commits fail or not, every entry of a registry
    is a class of the store that is named after the model it is filed under
    and has a column [name], and no class is filed twice, be it in two
    registries or under two models. [del env.registry[model]] and
    [env.registry.clear()] keep this. *)
Theorem registry_holds_generated_classes :
  (∀ failures st, reachable failures st → registry_sound st) ∧
  (∀ self model o st st',
     registry_sound st → registry_delitem self model st = (o, st') → registry_sound st') ∧
  (∀ self o st st',
     registry_sound st → registry_clear self st = (o, st') → registry_sound st').
Proof.
  split; [|split].
  - intros failures st Hreach.
    eapply (rtc_ind_r (λ st, registry_sound st)); [| |exact Hreach].
    + apply registry_sound_empty.
    + intros st1 st2 _ Hstep Hinv. by eapply registry_sound_step.
  - intros self model o st st' Hinv. rewrite registry_delitem_run.
    destruct (registries st !! _registry self) as [reg|] eqn:Hreg;
      [|intros Hrun; by injection Hrun as _ <-].
    destruct (reg !! model) as [cls|]; intros Hrun; injection Hrun as _ <-; [|done].
    eapply (registry_sound_shrink st _ (_registry self) reg (delete model reg));
      [done|apply delete_subseteq|done|done|done].
  - intros self o st st' Hinv. unfold registry_clear. run_monad.
    destruct (registries st !! _registry self) as [reg|] eqn:Hreg; simpl;
      intros Hrun; injection Hrun as _ <-; [|done].
    eapply (registry_sound_shrink st _ (_registry self) reg ∅);
      [done|apply map_empty_subseteq|done|done|done].
Qed.

End RegistryInvariant.

Section DerivedCommit.

Context `{!Transport, !IterOrder, !FieldStore}.

Lemma commit_loop_same_dirty e1 e2 snapshot st :
  _dirty e1 = _dirty e2 → commit_loop e1 snapshot st = commit_loop e2 snapshot st.
Proof.
  intros Hd. revert st. induction snapshot as [|r rest IH]; intros st; [done|].
  cbn [commit_loop]. unfold bind.
  assert (commit_record e1 r st = commit_record e2 r st) as ->.
  { unfold commit_record, dirty_remove, dirty. by rewrite Hd. }
  destruct (commit_record e2 r st) as [[[]|e] st1]; [apply IH|done].
Qed.

(** X14. [commit] and [invalidate] depend on the environment through its
    dirty set only: through a derived environment they do what they do
    through the original, in every state, and a record is dirty in the one
    exactly when it is dirty in the other. *)
Theorem derived_environment_commits_for_original self context st0 :
  ∃ derived st,
    __call__ self context st0 = (Ok derived, st) ∧
    ∀ st', commit derived st' = commit self st' ∧
           invalidate derived st' = invalidate self st' ∧
           ∀ r, is_dirty derived r st' ↔ is_dirty self r st'.
Proof.
  rewrite call_run. eexists _, _. split; [done|]. intros st'. split; [|split].
  - unfold commit, dirty, bind, gets, expect. simpl.
    destruct (dirties st' !! _dirty self); simpl; [|done].
    by apply commit_loop_same_dirty.
  - done.
  - done.
Qed.

End DerivedCommit.

(** ** The further properties on the examples *)



(** The class of [res.partner] is called [res_partner]. *)
Lemma class_name_has_no_dot_witness :
  @_create_model_class accepting canonical_order odoo_env "res.partner" st_login =
    (Ok 1%positive,
     run (@_create_model_class accepting canonical_order odoo_env "res.partner") st_login) ∧
  ∃ c,
    classes (run (@_create_model_class accepting canonical_order odoo_env "res.partner")
               st_login) !! 1%positive = Some c ∧
    String.length (cls_name c) = 11 ∧
    ("."%char ∉ list_ascii_of_string (cls_name c)).
Proof.
  assert (@_create_model_class accepting canonical_order odoo_env "res.partner" st_login =
            (Ok 1%positive,
             run (@_create_model_class accepting canonical_order odoo_env "res.partner")
               st_login)) as Hrun by (vm_compute; reflexivity).
  split; [exact Hrun|].
  destruct (@class_name_has_no_dot accepting canonical_order odoo_env "res.partner"
              st_login _ _ Hrun) as (c & Hc & Hlen & Hdot & _).
  exists c. split; [exact Hc|]. split; [exact Hlen|exact Hdot].
Defined.

(** After [del odoo.env.registry['res.partner']] the next lookup makes a
    second [fields_get] call. *)
Lemma registry_delitem_regenerates_witness :
  registries st_partner !! _registry odoo_env = Some {["res.partner" := 1%positive]} ∧
  is_Some (classes st_partner !! 1%positive) ∧
  ∃ st1,
    registry_delitem odoo_env "res.partner" st_partner = (Ok tt, st1) ∧
    trace (run (@__getitem__ accepting canonical_order odoo_env "res.partner") st1) =
      [FieldsGet "res.partner"; FieldsGet "res.partner"].
Proof.
  assert (registries st_partner !! _registry odoo_env =
            Some {["res.partner" := 1%positive]}) as Hreg by reflexivity.
  assert (is_Some (classes st_partner !! 1%positive)) as Hcls by (by eexists).
  split; [exact Hreg|]. split; [exact Hcls|].
  destruct (proj1 (@registry_delitem_regenerates accepting canonical_order)
              odoo_env "res.partner" st_partner _ 1%positive Hreg eq_refl Hcls)
    as (st1 & Hrun & _ & _ & _ & _ & _ & Hagain).
  exists st1. split; [exact Hrun|].
  exact (proj1 (Hagain _ _ (surjective_pairing _))).
Defined.


(** A second login after [odoo.env['res.partner']]: the new environment
    asks the server for the model again. *)
Lemma init_makes_independent_environment_witness :
  is_Some (registries st_partner !! _registry odoo_env) ∧
  ∃ env st',
    __init__ "db_name" 2 PNone st_partner = (Ok env, st') ∧
    _registry env ≠ _registry odoo_env ∧
    trace (run (@__getitem__ accepting canonical_order env "res.partner") st') =
      trace st_partner ++ [FieldsGet "res.partner"].
Proof.
  assert (is_Some (registries st_partner !! _registry odoo_env)) as Hsome by (by eexists).
  split; [exact Hsome|].
  destruct (@init_makes_independent_environment accepting canonical_order
              "db_name" 2 PNone st_partner)
    as (env & st' & Hrun & _ & _ & _ & _ & _ & _ & _ & _ & _ & _ & Hregs & _ & Hget & _).
  exists env, st'. split; [exact Hrun|]. split.
  - exact (proj1 (Hregs odoo_env Hsome)).
  - exact (proj1 (Hget "res.partner" _ _ (surjective_pairing _))).
Defined.

(** Two commits after [user.name = "Joe"]: the second one does nothing. *)
Lemma commit_is_idempotent_witness :
  commit_accepted st_joe = (Ok tt, run commit_accepted st_joe) ∧
  commit_accepted (run commit_accepted st_joe) = (Ok tt, run commit_accepted st_joe).
Proof.
  assert (commit_accepted st_joe = (Ok tt, run commit_accepted st_joe)) as Hrun
    by (vm_compute; reflexivity).
  split; [exact Hrun|].
  exact (proj1 (@commit_is_idempotent accepting canonical_order plain_store
                  odoo_env st_joe _ Hrun)).
Defined.


(** After [user.name = "Joe"], a commit that the server refuses and a
    commit that it accepts: the second one writes no value. *)
Lemma commit_retry_writes_no_values_witness :
  @commit rejecting_once canonical_order plain_store odoo_env st_joe =
    (Raise RPCError, run (@commit rejecting_once canonical_order plain_store odoo_env) st_joe) ∧
  @commit rejecting_once canonical_order plain_store odoo_env
    (run (@commit rejecting_once canonical_order plain_store odoo_env) st_joe) =
    (Ok tt,
     run (@commit rejecting_once canonical_order plain_store odoo_env)
       (run (@commit rejecting_once canonical_order plain_store odoo_env) st_joe)) ∧
  ∃ r record calls2,
    records st_joe !! r = Some record ∧
    trace (run (@commit rejecting_once canonical_order plain_store odoo_env)
             (run (@commit rejecting_once canonical_order plain_store odoo_env) st_joe)) =
      trace (run (@commit rejecting_once canonical_order plain_store odoo_env) st_joe) ++ calls2 ∧
    filter (is_write_of r) calls2 = [Write r (rec_id record) ∅].
Proof.
  assert (@commit rejecting_once canonical_order plain_store odoo_env st_joe =
            (Raise RPCError,
             run (@commit rejecting_once canonical_order plain_store odoo_env) st_joe))
    as Hfail by (vm_compute; reflexivity).
  assert (@commit rejecting_once canonical_order plain_store odoo_env
            (run (@commit rejecting_once canonical_order plain_store odoo_env) st_joe) =
            (Ok tt,
             run (@commit rejecting_once canonical_order plain_store odoo_env)
               (run (@commit rejecting_once canonical_order plain_store odoo_env) st_joe)))
    as Hretry by (vm_compute; reflexivity).
  split; [exact Hfail|]. split; [exact Hretry|].
  destruct (@commit_retry_writes_no_values rejecting_once canonical_order plain_store
              odoo_env st_joe _ _ Hfail Hretry)
    as (r & record & calls1 & calls2 & Hrec & _ & _ & Htrace & Hcalls & _).
  exists r, record, calls2. split; [exact Hrec|]. split; [exact Htrace|exact Hcalls].
Defined.

(** Under Python 3 the string [Sm9l] is encoded to four bytes. *)
Lemma encode2bytes_is_ascii_encoding_witness :
  (3 ≤ @version_major python3)%Z ∧
  @is_ascii "Sm9l" = true ∧
  ∃ b, @encode2bytes python3 (PStr "Sm9l") = Ok (PBytes b) ∧
       length b = 4 ∧
       string_of_list_ascii (ascii_of_byte <$> b) = "Sm9l".
Proof.
  assert (3 ≤ @version_major python3)%Z as Hpy by (vm_compute; discriminate).
  split; [exact Hpy|]. split; [reflexivity|].
  exact (proj1 (proj2 (@encode2bytes_is_ascii_encoding python3) Hpy) "Sm9l" eq_refl).
Defined.

(** The three reports are listed under their two models. *)
Lemma list_groups_reports_by_model_witness :
  @__getitem__ accepting canonical_order odoo_env "ir.actions.report.xml" st_login =
    (Ok 1%positive,
     run (@__getitem__ accepting canonical_order odoo_env "ir.actions.report.xml") st_login) ∧
  Forall has_model_and_id three_reports ∧
  ∃ groups,
    @list_reports accepting canonical_order python3 odoo_env read_three_reports st_login =
      (Ok groups,
       run (@__getitem__ accepting canonical_order odoo_env "ir.actions.report.xml") st_login) ∧
    @groups_get python3 (PStr "account.invoice") groups =
      Some [[("name", PStr "Invoices"); ("report_name", PStr "account.report_invoice");
             ("report_type", PStr "qweb-pdf")];
            [("name", PStr "Duplicates"); ("report_name", PStr "account.report_duplicate");
             ("report_type", PStr "qweb-pdf")]] ∧
    @groups_get python3 (PStr "res.partner") groups = None.
Proof.
  assert (@__getitem__ accepting canonical_order odoo_env "ir.actions.report.xml" st_login =
            (Ok 1%positive,
             run (@__getitem__ accepting canonical_order odoo_env "ir.actions.report.xml")
               st_login)) as Hget by (vm_compute; reflexivity).
  assert (Forall has_model_and_id three_reports) as Hreports.
  { repeat constructor; by eexists. }
  split; [exact Hget|]. split; [exact Hreports|].
  destruct (@list_groups_reports_by_model accepting canonical_order python3 odoo_env
              read_three_reports st_login _ _ three_reports _ Hget eq_refl Hreports)
    as (groups & Hrun & _ & Hgroups & _).
  exists groups. split; [exact Hrun|]. split; rewrite Hgroups; reflexivity.
Defined.

(** A report without [id] makes [Report.list] raise [KeyError]. *)
Lemma list_raises_key_error_witness :
  @__getitem__ accepting canonical_order odoo_env "ir.actions.report.xml" st_login =
    (Ok 1%positive,
     run (@__getitem__ accepting canonical_order odoo_env "ir.actions.report.xml") st_login) ∧
  dict_get "id" report_without_id = None ∧
  @list_reports accepting canonical_order python3 odoo_env
    (λ _, ret [report_without_id]) st_login =
    (Raise KeyError,
     run (@__getitem__ accepting canonical_order odoo_env "ir.actions.report.xml") st_login).
Proof.
  assert (@__getitem__ accepting canonical_order odoo_env "ir.actions.report.xml" st_login =
            (Ok 1%positive,
             run (@__getitem__ accepting canonical_order odoo_env "ir.actions.report.xml")
               st_login)) as Hget by (vm_compute; reflexivity).
  split; [exact Hget|]. split; [reflexivity|].
  apply (proj2 (proj2 (@list_raises_key_error accepting canonical_order python3))
           odoo_env (λ _, ret [report_without_id]) st_login _ _ [report_without_id] _
           Hget eq_refl).
  - intros report v Hin. apply list_elem_of_singleton in Hin. subst report.
    intros Hv. injection Hv as <-. reflexivity.
  - exists report_without_id. split; [apply list_elem_of_here|]. right. reflexivity.
Defined.

(** The state after [odoo.env['res.partner']] is reached by a login and a
    lookup. *)
Lemma st_partner_reachable (failures : bool) :
  @reachable accepting canonical_order plain_store failures st_partner.
Proof.
  unfold reachable.
  apply (rtc_l _ _ st_login).
  { apply (step_init _ "db_name" 1 (PDict [("lang", PStr "fr_FR")]) odoo_env).
    reflexivity. }
  apply (rtc_l _ _ st_partner).
  { apply (step_getitem _ odoo_env "res.partner" (Ok 1%positive)). reflexivity. }
  apply rtc_refl.
Defined.

(** The registry of [odoo.env] after the lookup of [res.partner]. *)
Lemma registry_holds_generated_classes_witness :
  @reachable accepting canonical_order plain_store true st_partner ∧
  registries st_partner !! 1%positive = Some {["res.partner" := 1%positive]} ∧
  ∃ c columns,
    classes st_partner !! 1%positive = Some c ∧
    cls_name c = "res_partner" ∧
    cls_attrs c !! "_columns" = Some (AColumns columns) ∧
    is_Some (columns !! "name").
Proof.
  split; [apply st_partner_reachable|]. split; [reflexivity|].
  exact (proj1 (proj1 (@registry_holds_generated_classes accepting canonical_order plain_store)
                  true st_partner (st_partner_reachable true))
           1%positive {["res.partner" := 1%positive]} "res.partner" 1%positive
           eq_refl eq_refl).
Defined.
